(** * binance.py event streams: [binance/web_sockets.py]

    A shallow embedding of the three stream classes of the module,
    [EventsDataStream], [MarketEventsDataStream] and [UserEventsDataStream],
    and the properties of their receive loop, demultiplexing, liveness
    probe, keepalive and connection entry points.

    Python objects are modelled by explicit state passing: every method
    is a function from a [World] (the attributes of [self], the asyncio
    event loop, the observable effects so far) to a result and a new
    [World].  A raised exception is a result of its own, and the effects
    performed before the raise stay in the world. *)

From Stdlib Require Import ZArith List String Bool Lia Sorted.
Import ListNotations.

Local Open Scope string_scope.
Local Open Scope list_scope.
Local Open Scope Z_scope.

(** ** Exceptions and results *)

Inductive exn : Type :=
| AttributeError
| TypeError
| KeyError
| JSONDecodeError
| ValueError      (* of [json.loads] on bytes: a [JSONDecodeError] or a
                     [UnicodeDecodeError], both of this class *)
| OverflowError   (* of [datetime.fromtimestamp] out of range *)
| ClientError.    (* raised by a collaborator: REST client, transport *)

Inductive result (A : Type) : Type :=
| Ok (a : A)
| Raise (e : exn).

Arguments Ok {A} a.
Arguments Raise {A} e.

(** ** Decoded frames: the values [json.loads] produces *)

#[local] Set Warnings "-register-all".

Inductive json : Type :=
| JNull
| JBool (b : bool)
| JInt (z : Z)
| JFloat (literal : string)
| JStr (s : string)
| JArr (items : list json)
| JObj (fields : list (string * json)).

(** A [dict] keeps its keys in insertion order; assigning to a key that is
    present replaces the value in place, assigning to a new key appends. *)
Definition dict : Type := list (string * json).

Fixpoint dict_get (k : string) (d : dict) : option json :=
  match d with
  | [] => None
  | (k', v) :: d' => if String.eqb k k' then Some v else dict_get k d'
  end.

Definition dict_has (k : string) (d : dict) : bool :=
  match dict_get k d with Some _ => true | None => false end.

Fixpoint dict_set (k : string) (v : json) (d : dict) : dict :=
  match d with
  | [] => [(k, v)]
  | (k', v') :: d' =>
      if String.eqb k k' then (k, v) :: d' else (k', v') :: dict_set k v d'
  end.

Definition is_str (s : string) (j : json) : bool :=
  match j with JStr t => String.eqb s t | _ => false end.

Definition is_substring (s t : string) : bool :=
  match String.index 0 s t with Some _ => true | None => false end.

(** [s in c] for a string [s]: key membership on a dict, element equality
    on a list, substring on a string, [TypeError] on anything else. *)
Definition py_in (s : string) (c : json) : result bool :=
  match c with
  | JObj d => Ok (dict_has s d)
  | JArr l => Ok (existsb (is_str s) l)
  | JStr t => Ok (is_substring s t)
  | _ => Raise TypeError
  end.

(** [c[s]] for a string [s]. *)
Definition py_getitem (s : string) (c : json) : result json :=
  match c with
  | JObj d => match dict_get s d with Some v => Ok v | None => Raise KeyError end
  | _ => Raise TypeError
  end.

(** [c[s] = v] for a string [s]; the result is the object after the store. *)
Definition py_setitem (s : string) (v : json) (c : json) : result json :=
  match c with
  | JObj d => Ok (JObj (dict_set s v d))
  | _ => Raise TypeError
  end.

(** ** Frames of the transport: [aiohttp.WSMessage] *)

Inductive WSMsgType : Type :=
| CONTINUATION | TEXT | BINARY | PING | PONG | CLOSE | CLOSING | CLOSED | ERROR.

(** [msg.data]: text or bytes for a data frame, the close code for [CLOSE],
    [None] for [CLOSING] and [CLOSED], the exception for [ERROR]. *)
Inductive MsgData : Type :=
| DStr (s : string)
| DBytes (s : string)
| DInt (code : Z)
| DNone
| DExc.

Record WSMessage : Type := { type : WSMsgType; data : MsgData }.

(** A frame as the receive loop gets it, with the float that
    [datetime.now().timestamp()] returns right after its receipt.  The
    float is held as an integer: timestamps are only compared with one
    another and handed to [datetime.fromtimestamp], so any numbering of
    the floats that keeps their order will do; the examples number them
    by microseconds. *)
Record Arrival : Type := { msg : WSMessage; at_us : Z }.

(** ** Coroutines and the event loop *)

Inductive StreamKind : Type := Market | User.

Record WebSocket : Type := { ws_url : string; closed : bool }.

(** Calling an [async def] runs none of its body: it builds a coroutine
    object, which runs only when awaited or scheduled. *)
Inductive Coro : Type :=
| CStart (k : StreamKind)                      (* self.start() *)
| CHeartbeat (listen_key : string) (interval : Z)  (* self._heartbeat(key) *)
| CWsClose (ws : WebSocket).                   (* self.web_socket.close() *)

Inductive PyVal : Type :=
| VNone
| VCoro (c : Coro).

(** ** Observable effects *)

Inductive Event : Type :=
| EvSetTime (t : Z)                 (* self.last_msg_time = ... *)
| EvLogError (text : string)        (* logging.error *)
| EvPrint (template : string) (arg : json) (colour : string)
| EvDecode (d : MsgData)            (* json.loads(msg.data) entered *)
| EvFire (doc : json)               (* client.events.wrap_event(doc).fire() *)
| EvSessionOpen
| EvSessionClose
| EvCreateListenKey
| EvWsConnect (url : string) (proxy : option string).

(** ** The world *)

Record World : Type := mkWorld {
  last_msg_time : option Z;        (* the float, numbered as in [Arrival];
                                      None: the attribute is not set *)
  web_socket : option WebSocket;   (* None: the attribute is not set *)
  tasks : list Coro;               (* scheduled on the event loop *)
  dropped : list Coro;             (* created, never awaited nor scheduled *)
  trace : list Event               (* effects, oldest first *)
}.

Definition M (A : Type) : Type := World -> result A * World.

Definition ret {A} (a : A) : M A := fun w => (Ok a, w).
Definition raise {A} (e : exn) : M A := fun w => (Raise e, w).
Definition bind {A B} (m : M A) (k : A -> M B) : M B :=
  fun w => match m w with
           | (Ok a, w') => k a w'
           | (Raise e, w') => (Raise e, w')
           end.
Definition lift {A} (r : result A) : M A := fun w => (r, w).

Notation "x <- m ;; k" := (bind m (fun x => k))
  (at level 61, m at next level, right associativity).
Notation "m ;;; k" := (bind m (fun _ => k))
  (at level 61, right associativity).

Definition emit (e : Event) : M unit :=
  fun w => (Ok tt, mkWorld (last_msg_time w) (web_socket w) (tasks w)
                           (dropped w) (trace w ++ [e])).

Definition set_last_msg_time (t : Z) : M unit :=
  fun w => (Ok tt, mkWorld (Some t) (web_socket w) (tasks w)
                           (dropped w) (trace w ++ [EvSetTime t])).

Definition set_web_socket (ws : WebSocket) : M unit :=
  fun w => (Ok tt, mkWorld (last_msg_time w) (Some ws) (tasks w)
                           (dropped w) (trace w)).

(** Reading an attribute that was never assigned raises [AttributeError]:
    the class bodies only annotate [last_msg_time] and [web_socket]. *)
Definition get_last_msg_time : M Z :=
  fun w => match last_msg_time w with
           | Some t => (Ok t, w)
           | None => (Raise AttributeError, w)
           end.

Definition get_web_socket : M WebSocket :=
  fun w => match web_socket w with
           | Some ws => (Ok ws, w)
           | None => (Raise AttributeError, w)
           end.

(** A coroutine object that is built and thrown away. *)
Definition drop_coro (c : Coro) : M unit :=
  fun w => (Ok tt, mkWorld (last_msg_time w) (web_socket w) (tasks w)
                           (dropped w ++ [c]) (trace w)).

(** [asyncio.ensure_future(v)]: schedules a coroutine, and raises
    [TypeError] on a value that is not awaitable. *)
Definition ensure_future (v : PyVal) : M unit :=
  match v with
  | VCoro c =>
      fun w => (Ok tt, mkWorld (last_msg_time w) (web_socket w)
                               (tasks w ++ [c]) (dropped w) (trace w))
  | VNone => raise TypeError
  end.

(** The state of a stream after [__init__]: no attribute of the two is
    set, nothing is scheduled, nothing has happened. *)
Definition init : World := mkWorld None None [] [] [].

(** ** The client: what the streams read from [self.client] *)

Record Client : Type := {
  proxy : option string;
  registered_streams : list string
}.

(** Truth value of [self.client.proxy]: [None] and the empty string are
    false. *)
Definition truthy (p : option string) : bool :=
  match p with
  | Some s => negb (String.eqb s EmptyString)
  | None => false
  end.

Definition fire (doc : json) : M unit := emit (EvFire doc).

(** ** [MarketEventsDataStream._handle_event] *)

(** The [for] loop over a batched payload: every element is tagged with
    the topic label and fired, in order; an element that does not support
    item assignment raises after the earlier ones have been fired. *)
Fixpoint fire_each (stream_name : json) (content : list json) : M unit :=
  match content with
  | [] => ret tt
  | event_content :: rest =>
      tagged <- lift (py_setitem "stream" stream_name event_content) ;;
      fire tagged ;;;
      fire_each stream_name rest
  end.

Definition market_handle_event (content : json) : M unit :=
  has_stream <- lift (py_in "stream" content) ;;
  if (has_stream : bool) then
    stream_name <- lift (py_getitem "stream" content) ;;
    payload <- lift (py_getitem "data" content) ;;
    match payload with
    | JArr items => fire_each stream_name items
    | _ =>
        tagged <- lift (py_setitem "stream" stream_name payload) ;;
        fire tagged
    end
  else
    emit (EvPrint "received event without stream: {}" content "cyan").

(** ** [UserEventsDataStream._handle_event] *)

Definition user_handle_event (content : json) : M unit := fire content.

Definition _handle_event (k : StreamKind) (content : json) : M unit :=
  match k with
  | Market => market_handle_event content
  | User => user_handle_event content
  end.

(** ** [connect]: the same body in both classes, [self.start()] *)

(** [start] is an [async def]: the call builds a coroutine object, which
    the statement throws away; the method then returns [None]. *)
Definition connect (k : StreamKind) : M PyVal :=
  drop_coro (CStart k) ;;;
  ret VNone.

Section Streams.

(** The decoder behind [json.loads]: [None] for a text that is not a JSON
    document, and for bytes that do not decode to one. *)
Variable loads : string -> option json.

(** On text a failure is a [JSONDecodeError]; on bytes it is that or the
    [UnicodeDecodeError] of bytes that are no text, a [ValueError] either
    way. *)
Definition json_loads (d : MsgData) : M json :=
  emit (EvDecode d) ;;;
  match d with
  | DStr s =>
      match loads s with
      | Some j => ret j
      | None => raise JSONDecodeError
      end
  | DBytes s =>
      match loads s with
      | Some j => ret j
      | None => raise ValueError
      end
  | DInt _ | DNone | DExc => raise TypeError
  end.

(** ** [EventsDataStream._handle_messages] *)

Definition closed_text : string :=
  "Trying to receive something while the websocket is closed! Trying to reconnect.".
Definition error_text : string :=
  "Something went wrong with the websocket, reconnecting...".

(** The reconnect trigger, [asyncio.ensure_future(self.connect())]: the
    argument is evaluated first, so [connect] runs to its end inside the
    loop, and [ensure_future] gets what it returned. *)
Definition reconnect (k : StreamKind) : M unit :=
  v <- connect k ;;
  ensure_future v.

(** One turn of the [while True] body, for the frame just received. *)
Definition iteration (k : StreamKind) (a : Arrival) : M unit :=
  set_last_msg_time (at_us a) ;;;
  match type (msg a) with
  | CLOSED | CLOSE => emit (EvLogError closed_text) ;;; reconnect k
  | ERROR => emit (EvLogError error_text) ;;; reconnect k
  | _ => ret tt
  end ;;;
  content <- json_loads (data (msg a)) ;;
  _handle_event k content.

(** The loop over the frames the transport delivers.  [Ok tt] stands for
    the loop suspended in [receive()], every delivered frame processed;
    [Raise e] for the loop ended by the exception [e].  The loop has no
    other exit. *)
Fixpoint _handle_messages (k : StreamKind) (inbox : list Arrival) : M unit :=
  match inbox with
  | [] => ret tt
  | a :: rest => iteration k a ;;; _handle_messages k rest
  end.

(** ** [start] *)

(** [async with aiohttp.ClientSession() as session]: the session is
    closed when the body is left, which here happens by an exception
    only. *)
Definition async_with_session {A} (body : M A) : M A :=
  fun w =>
    match (emit EvSessionOpen ;;; body) w with
    | (Ok a, w') => (Ok a, w')
    | (Raise e, w') => (Raise e, snd (emit EvSessionClose w'))
    end.

(** [session.ws_connect(url, proxy=p)]; [reachable] tells whether the
    handshake succeeds. *)
Definition ws_connect (reachable : bool) (url : string) (p : option string)
  : M WebSocket :=
  emit (EvWsConnect url p) ;;;
  if reachable then ret {| ws_url := url; closed := false |}
  else raise ClientError.

Definition market_start (c : Client) (endpoint : string) (reachable : bool)
    (inbox : list Arrival) : M unit :=
  async_with_session (
    let combined_streams := String.concat "/" (registered_streams c) in
    let url := (endpoint ++ "/stream?streams=" ++ combined_streams)%string in
    ws <- (if truthy (proxy c)
           then ws_connect reachable url (proxy c)
           else ws_connect reachable url None) ;;
    set_web_socket ws ;;;
    _handle_messages Market inbox).

(** [(await self.client.create_listen_key())["listenKey"]]: [None] for a
    provider that fails. *)
Definition create_listen_key (issued : option string) : M string :=
  emit EvCreateListenKey ;;;
  match issued with
  | Some key => ret key
  | None => raise ClientError
  end.

Definition user_start (c : Client) (endpoint : string)
    (issued : option string) (reachable : bool) (inbox : list Arrival)
  : M unit :=
  async_with_session (
    listen_key <- create_listen_key issued ;;
    let url := (endpoint ++ "/ws/" ++ listen_key)%string in
    ws <- (if truthy (proxy c)
           then ws_connect reachable url None
           else ws_connect reachable url (proxy c)) ;;
    set_web_socket ws ;;;
    ensure_future (VCoro (CHeartbeat listen_key (60 * 30))) ;;;
    _handle_messages User inbox).

(** ** What one frame does *)

(** The body of the loop after the assignment to [last_msg_time]. *)
Definition after_timestamp (k : StreamKind) (a : Arrival) : M unit :=
  match type (msg a) with
  | CLOSED | CLOSE => emit (EvLogError closed_text) ;;; reconnect k
  | ERROR => emit (EvLogError error_text) ;;; reconnect k
  | _ => ret tt
  end ;;;
  content <- json_loads (data (msg a)) ;;
  _handle_event k content.

(** What one frame does to a stream fresh from [__init__]: the result of
    its turn of the loop, and the effects of the turn. *)
Definition outcome_of (k : StreamKind) (a : Arrival) : result unit :=
  fst (iteration k a init).

Definition effects_of (k : StreamKind) (a : Arrival) : list Event :=
  trace (snd (iteration k a init)).

(** The frames the loop takes from the transport: those delivered up to
    and including the first one whose turn raises. *)
Fixpoint received (k : StreamKind) (inbox : list Arrival) : list Arrival :=
  match inbox with
  | [] => []
  | a :: rest =>
      a :: match outcome_of k a with
           | Ok _ => received k rest
           | Raise _ => []
           end
  end.

End Streams.

(** ** [connected] *)

(** [datetime.timedelta] in its normal form: [0 <= seconds < 86400] and
    [0 <= microseconds < 1000000], the sign carried by [days] alone. *)
Record timedelta : Type := {
  days : Z;
  seconds : Z;
  microseconds : Z
}.

Definition us_per_second : Z := 1000000.
Definition us_per_day : Z := 86400 * us_per_second.

Definition timedelta_of_us (us : Z) : timedelta :=
  {| days := us / us_per_day;
     seconds := (us mod us_per_day) / us_per_second;
     microseconds := us mod us_per_second |}.

Section Probe.

(** [datetime.fromtimestamp] on the stored float: the naive local
    [datetime] of the timestamp, in microseconds on the axis of naive
    datetimes, and [None] for a timestamp the platform cannot convert,
    where the call raises.  The time zone of the machine and the rounding
    of the float to a microsecond are inside this function. *)
Variable fromtimestamp : Z -> option Z.

(** [now] is the reading of [datetime.now()], a naive local [datetime],
    in microseconds on the same axis: a [datetime] has microsecond
    resolution, and the difference of two naive datetimes is the
    difference of their readings. *)
Definition market_connected (c : Client) (now : Z) : M bool :=
  if negb (Z.of_nat (List.length (registered_streams c)) =? 0) then
    t <- get_last_msg_time ;;
    heard <- match fromtimestamp t with
             | Some dt => ret dt
             | None => raise OverflowError
             end ;;
    let delta := timedelta_of_us (now - heard) in
    if seconds delta >? 2 then ret false
    else ret true
  else ret true.

Definition user_connected : M bool :=
  ws <- get_web_socket ;;
  ret (negb (closed ws)).

Definition connected (k : StreamKind) (c : Client) (now : Z) : M bool :=
  match k with
  | Market => market_connected c now
  | User => user_connected
  end.

End Probe.

(** ** [close] *)

(** [ClientWebSocketResponse.close] is an [async def] of aiohttp: the call
    in [MarketEventsDataStream.close] builds its coroutine and leaves it.
    [UserEventsDataStream] and its base class define no [close]: looking
    the method up raises [AttributeError]. *)
Definition close (k : StreamKind) : M unit :=
  match k with
  | Market =>
      ws <- get_web_socket ;;
      drop_coro (CWsClose ws)
  | User => raise AttributeError
  end.

(** ** [UserEventsDataStream._heartbeat], in virtual time *)

(** What one call of [client.keep_alive_listen_key] does: it takes some
    time, and then returns (a result the loop ignores, here whether the
    server accepted the renewal) or raises. *)
Inductive RenewOutcome : Type :=
| Returns (accepted : bool)
| Raises.

Record Renewal : Type := { took : Z; outcome : RenewOutcome }.

(** An invocation of the renewal, with the token and the time of the call. *)
Record Beat : Type := { beat_key : string; beat_at : Z }.

Record Timeline : Type := { clock : Z; beats : list Beat }.

(** [asyncio.sleep(d)] with [d <= 0] comes back at once. *)
Definition sleep (d : Z) (s : Timeline) : Timeline :=
  {| clock := clock s + Z.max 0 d; beats := beats s |}.

Definition keep_alive_listen_key (listen_key : string) (r : Renewal)
    (s : Timeline) : result unit * Timeline :=
  let s' := {| clock := clock s + Z.max 0 (took r);
               beats := beats s ++ [{| beat_key := listen_key;
                                       beat_at := clock s |}] |} in
  match outcome r with
  | Returns _ => (Ok tt, s')
  | Raises => (Raise ClientError, s')
  end.

(** The [while True] loop against the renewals the environment answers
    with, one per turn.  [Ok tt]: the task is alive, asleep after the last
    of them; [Raise e]: the task has ended with [e]. *)
Fixpoint _heartbeat (listen_key : string) (interval : Z)
    (env : list Renewal) (s : Timeline) : result unit * Timeline :=
  match env with
  | [] => (Ok tt, s)
  | r :: env' =>
      match keep_alive_listen_key listen_key r (sleep interval s) with
      | (Ok _, s') => _heartbeat listen_key interval env' s'
      | (Raise e, s') => (Raise e, s')
      end
  end.

(** The interval [start] leaves to the default of [_heartbeat]. *)
Definition default_interval : Z := 60 * 30.

(** ** Reading a trace *)

Definition fired (t : list Event) : list json :=
  flat_map (fun e => match e with EvFire d => [d] | _ => [] end) t.

Definition printed (t : list Event) : list Event :=
  filter (fun e => match e with EvPrint _ _ _ => true | _ => false end) t.

Definition logged (t : list Event) : list string :=
  flat_map (fun e => match e with EvLogError s => [s] | _ => [] end) t.

Definition times (t : list Event) : list Z :=
  flat_map (fun e => match e with EvSetTime z => [z] | _ => [] end) t.

Definition decoded (t : list Event) : list MsgData :=
  flat_map (fun e => match e with EvDecode d => [d] | _ => [] end) t.

Definition ws_connects (t : list Event) : list (string * option string) :=
  flat_map (fun e => match e with EvWsConnect u p => [(u, p)] | _ => [] end) t.

(** * Notions the properties are stated with *)

(** [extend w d]: the world [w] after the effects that lead from [init]
    to [d]. *)
Definition extend (w d : World) : World :=
  mkWorld
    (match last_msg_time d with Some t => Some t | None => last_msg_time w end)
    (match web_socket d with Some ws => Some ws | None => web_socket w end)
    (tasks w ++ tasks d) (dropped w ++ dropped d) (trace w ++ trace d).

(** A computation is uniform when it reads nothing of the world: its
    result is the one it has from [init], its effects are added to the
    world it starts from. *)
Definition uniform {A} (m : M A) : Prop :=
  forall w, m w = (fst (m init), extend w (snd (m init))).

(** The world [w] with the events [t] added to its trace. *)
Definition record (w : World) (t : list Event) : World :=
  mkWorld (last_msg_time w) (web_socket w) (tasks w) (dropped w)
          (trace w ++ t).

(** The payloads the wire format allows under [data]: a document or an
    ordered sequence of documents. *)
Inductive Payload : Type :=
| Batch (docs : list dict)
| Single (doc : dict).

Definition payload_json (p : Payload) : json :=
  match p with
  | Batch docs => JArr (map JObj docs)
  | Single doc => JObj doc
  end.

Definition payload_docs (p : Payload) : list dict :=
  match p with
  | Batch docs => docs
  | Single doc => [doc]
  end.

Definition tag (stream_name : json) (doc : dict) : json :=
  JObj (dict_set "stream" stream_name doc).

(** A decoded frame is a mapping or an ordered sequence of mappings; it
    lacks the [stream] key when it is a mapping without that key, or a
    sequence (which has no keys). *)
Definition is_document (j : json) : bool :=
  match j with JObj _ => true | _ => false end.

Definition lacks_stream_key (content : json) : bool :=
  match content with
  | JObj d => negb (dict_has "stream" d)
  | JArr l => forallb is_document l
  | _ => false
  end.

(** The events the body of the loop makes after the timestamp is set. *)
Definition body_event (e : Event) : bool :=
  match e with
  | EvLogError _ | EvPrint _ _ _ | EvDecode _ | EvFire _ => true
  | _ => false
  end.

(** A computation of the loop body: uniform, with body events only, and
    with no assignment to [last_msg_time]. *)
Definition tame {A} (m : M A) : Prop :=
  uniform m /\
  forallb body_event (trace (snd (m init))) = true /\
  last_msg_time (snd (m init)) = None.

(** A decoder that knows two texts, written here by name: the text of a
    trade wrapper and the text of an account event; any other text is
    malformed. *)
Definition sample_loads (s : string) : option json :=
  if String.eqb s "TRADE" then
    Some (JObj [("stream", JStr "btcusdt@trade"); ("data", JObj [("p", JInt 1)])])
  else if String.eqb s "ACCOUNT" then
    Some (JObj [("e", JStr "outboundAccountPosition")])
  else None.

Definition frame (t : WSMsgType) (d : MsgData) (reading : Z) : Arrival :=
  {| msg := {| type := t; data := d |}; at_us := reading |}.

(** A client with one registered topic and no proxy. *)
Definition one_topic : Client :=
  {| proxy := None; registered_streams := ["btcusdt@trade"] |}.

(** The world of a stream whose last frame came at [t]. *)
Definition heard_at (t : Z) : World := mkWorld (Some t) None [] [] [].

Definition returns (r : Renewal) : bool :=
  match outcome r with Returns _ => true | Raises => false end.

(** The invocations a run of renewals that all return makes, from the
    time [t] on: one per turn, each an interval after the previous call
    came back. *)
Fixpoint schedule (listen_key : string) (interval : Z) (env : list Renewal)
    (t : Z) : list Beat :=
  match env with
  | [] => []
  | r :: env' =>
      {| beat_key := listen_key; beat_at := t + Z.max 0 interval |}
        :: schedule listen_key interval env'
             (t + Z.max 0 interval + Z.max 0 (took r))
  end.

Fixpoint finish (interval : Z) (env : list Renewal) (t : Z) : Z :=
  match env with
  | [] => t
  | r :: env' => finish interval env' (t + Z.max 0 interval + Z.max 0 (took r))
  end.

Definition midnight : Timeline := {| clock := 0; beats := [] |}.

(** Three renewals that return, the second one turned down by the
    server. *)
Definition three_renewals : list Renewal :=
  [ {| took := 1; outcome := Returns true |};
    {| took := 2; outcome := Returns false |};
    {| took := 1; outcome := Returns true |} ].

(** * The rest of the module *)

(** ** [EventsDataStream.__init__] *)

(** The attributes [__init__] sets.  [version] is the [__version__] of the
    package, which the module imports. *)
Record Attributes : Type := {
  self_client : Client;
  self_endpoint : string;
  self_user_agent : string
}.

Definition default_user_agent (version : string) : string :=
  ("binance.py (https://git.io/binance.py, " ++ version ++ ")")%string.

Definition __init__ (version : string) (client : Client) (endpoint : string)
    (user_agent : option string) : Attributes :=
  {| self_client := client;
     self_endpoint := endpoint;
     self_user_agent :=
       if truthy user_agent
       then match user_agent with Some ua => ua | None => EmptyString end
       else default_user_agent version |}.

(** ** Notions for the further properties *)

(** The frame types the loop tests for. *)
Definition signals_closure (t : WSMsgType) : bool :=
  match t with
  | CLOSED | CLOSE | ERROR => true
  | _ => false
  end.

(** The text a frame carries, when its payload is one [json.loads] takes. *)
Definition text_of (d : MsgData) : option string :=
  match d with
  | DStr s | DBytes s => Some s
  | DInt _ | DNone | DExc => None
  end.

(** The events of the receive loop. *)
Definition loop_event (e : Event) : bool :=
  match e with
  | EvSetTime _ => true
  | _ => body_event e
  end.

Definition session_events (t : list Event) : list Event :=
  filter (fun e => match e with
                   | EvSessionOpen | EvSessionClose => true
                   | _ => false
                   end) t.

Definition token_requests (t : list Event) : nat :=
  List.length (filter (fun e => match e with
                                | EvCreateListenKey => true
                                | _ => false
                                end) t).

(** A computation that schedules nothing and leaves [web_socket] alone. *)
Definition inert {A} (m : M A) : Prop :=
  uniform m /\
  tasks (snd (m init)) = [] /\
  web_socket (snd (m init)) = None.

(** The proxy argument of the [ws_connect] of each [start]. *)
Definition market_proxy_argument (c : Client) : option string :=
  if truthy (proxy c) then proxy c else None.

Definition user_proxy_argument (c : Client) : option string :=
  if truthy (proxy c) then None else proxy c.

(** The time the renewals of [env] take, one after the other. *)
Definition busy (env : list Renewal) : Z :=
  fold_right (fun r acc => Z.max 0 (took r) + acc) 0 env.

(** The decoded content a frame brings to [_handle_event]: none for a
    frame the loop takes for a closure, for a payload that is no text, and
    for a text that does not decode. *)
Definition content_of (loads : string -> option json) (a : Arrival)
  : option json :=
  if signals_closure (type (msg a)) then None
  else match text_of (data (msg a)) with
       | Some s => loads s
       | None => None
       end.

(** The decoded frames a [MarketEventsDataStream] handles without
    raising: a wrapper with a [stream] key whose [data] is a document or a
    sequence of documents, and a frame without a [stream] key. *)
Definition deliverable (content : json) : bool :=
  match content with
  | JObj d =>
      match dict_get "stream" d with
      | None => true
      | Some _ =>
          match dict_get "data" d with
          | Some (JObj _) => true
          | Some (JArr l) => forallb is_document l
          | _ => false
          end
      end
  | JArr l => forallb is_document l
  | _ => false
  end.

(** The addresses the two [start] connect to. *)
Definition market_url (endpoint : string) (c : Client) : string :=
  (endpoint ++ "/stream?streams=" ++ String.concat "/" (registered_streams c))%string.

Definition user_url (endpoint listen_key : string) : string :=
  (endpoint ++ "/ws/" ++ listen_key)%string.

(** A frame a [MarketEventsDataStream] takes in its stride. *)
Definition market_takes (loads : string -> option json) (a : Arrival) : bool :=
  match content_of loads a with
  | Some content => deliverable content
  | None => false
  end.

(** ** Notions for the order of the loop *)





(** [datetime.fromtimestamp] on a machine whose local time is UTC, for
    timestamps numbered by microseconds that the float holds exactly:
    the naive local datetime of a timestamp is the timestamp. *)
Definition utc (t : Z) : option Z := Some t.

(** * Properties *)

(** ** Worlds that grow *)

Lemma extend_init_r w : extend w init = w.
Proof. destruct w; unfold extend; simpl; now rewrite !app_nil_r. Qed.

Lemma extend_init_l d : extend init d = d.
Proof. destruct d as [t s ? ? ?]; unfold extend; simpl; now destruct t, s. Qed.

Lemma extend_assoc w a b : extend (extend w a) b = extend w (extend a b).
Proof.
  unfold extend; simpl; rewrite !app_assoc.
  destruct (last_msg_time b), (web_socket b); reflexivity.
Qed.

Lemma uniform_ret {A} (a : A) : uniform (ret a).
Proof. intro w; unfold ret; simpl; now rewrite extend_init_r. Qed.

Lemma uniform_raise {A} e : uniform (@raise A e).
Proof. intro w; unfold raise; simpl; now rewrite extend_init_r. Qed.

Lemma uniform_lift {A} (r : result A) : uniform (lift r).
Proof. intro w; unfold lift; simpl; now rewrite extend_init_r. Qed.

Lemma uniform_emit e : uniform (emit e).
Proof. intro w; unfold emit, extend; simpl; now rewrite !app_nil_r. Qed.

Lemma uniform_set_last_msg_time t : uniform (set_last_msg_time t).
Proof. intro w; unfold set_last_msg_time, extend; simpl; now rewrite !app_nil_r. Qed.

Lemma uniform_set_web_socket ws : uniform (set_web_socket ws).
Proof. intro w; unfold set_web_socket, extend; simpl; now rewrite !app_nil_r. Qed.

Lemma uniform_drop_coro c : uniform (drop_coro c).
Proof. intro w; unfold drop_coro, extend; simpl; now rewrite !app_nil_r. Qed.

Lemma uniform_ensure_future v : uniform (ensure_future v).
Proof.
  destruct v; [apply uniform_raise|].
  intro w; unfold ensure_future, extend; simpl; now rewrite !app_nil_r.
Qed.

Lemma uniform_bind {A B} (m : M A) (k : A -> M B) :
  uniform m -> (forall a, uniform (k a)) -> uniform (bind m k).
Proof.
  intros Hm Hk w. unfold bind. rewrite (Hm w).
  destruct (m init) as [[a|e] d]; simpl.
  - rewrite (Hk a (extend w d)), (Hk a d), extend_assoc. reflexivity.
  - reflexivity.
Qed.

Create HintDb uniform.
#[local] Hint Resolve uniform_ret uniform_raise uniform_lift uniform_emit
  uniform_set_last_msg_time uniform_set_web_socket uniform_drop_coro
  uniform_ensure_future : uniform.

Ltac uniformity :=
  repeat first
    [ apply uniform_bind; [| intros ? ]
    | solve [ auto with uniform ]
    | match goal with
      | |- uniform (match ?x with _ => _ end) => destruct x
      | |- uniform (if ?x then _ else _) => destruct x
      end ].

(** The effects of a sequence are those of its first part, and then those
    of the rest if the first part does not raise. *)
Lemma trace_bind {A B} (m : M A) (k : A -> M B) w :
  uniform m -> (forall a, uniform (k a)) ->
  trace (snd (bind m k w)) =
    trace w ++ trace (snd (m init)) ++
    match fst (m init) with
    | Ok a => trace (snd (k a init))
    | Raise _ => []
    end.
Proof.
  intros Hm Hk. unfold bind. rewrite (Hm w).
  destruct (m init) as [[a|e] d]; simpl.
  - rewrite (Hk a). simpl. now rewrite app_assoc.
  - now rewrite app_nil_r.
Qed.

Lemma fired_app t u : fired (t ++ u) = fired t ++ fired u.
Proof. apply flat_map_app. Qed.

Lemma times_app t u : times (t ++ u) = times t ++ times u.
Proof. apply flat_map_app. Qed.

Lemma decoded_app t u : decoded (t ++ u) = decoded t ++ decoded u.
Proof. apply flat_map_app. Qed.

Lemma logged_app t u : logged (t ++ u) = logged t ++ logged u.
Proof. apply flat_map_app. Qed.

Lemma ws_connects_app t u : ws_connects (t ++ u) = ws_connects t ++ ws_connects u.
Proof. apply flat_map_app. Qed.

Lemma printed_app t u : printed (t ++ u) = printed t ++ printed u.
Proof. apply filter_app. Qed.

(** ** Dictionaries *)

Lemma dict_get_set_same k v d : dict_get k (dict_set k v d) = Some v.
Proof.
  induction d as [|[k' v'] d IH]; simpl.
  - now rewrite String.eqb_refl.
  - destruct (String.eqb k k') eqn:E; simpl.
    + now rewrite String.eqb_refl.
    + now rewrite E.
Qed.

Lemma dict_get_set_other k k' v d :
  k' <> k -> dict_get k' (dict_set k v d) = dict_get k' d.
Proof.
  intros Hne. induction d as [|[k0 v0] d IH]; simpl.
  - destruct (String.eqb_spec k' k); [contradiction | reflexivity].
  - destruct (String.eqb_spec k k0) as [->|Hk]; simpl.
    + destruct (String.eqb_spec k' k0); [contradiction | reflexivity].
    + destruct (String.eqb_spec k' k0); [reflexivity | exact IH].
Qed.

(** ** Demultiplexing *)

Lemma record_nil w : record w [] = w.
Proof. destruct w; unfold record; simpl; now rewrite app_nil_r. Qed.

Lemma record_record w t u : record (record w t) u = record w (t ++ u).
Proof. unfold record; simpl; now rewrite app_assoc. Qed.

Lemma fire_each_docs stream_name docs w :
  fire_each stream_name (map JObj docs) w =
    (Ok tt, record w (map (fun d => EvFire (tag stream_name d)) docs)).
Proof.
  revert w. induction docs as [|d docs IH]; intro w; simpl.
  - unfold ret. now rewrite record_nil.
  - unfold bind, lift, fire, emit. simpl.
    rewrite IH. unfold record, tag. simpl. now rewrite <- app_assoc.
Qed.

Lemma fired_map_fire {A} (f : A -> json) l :
  fired (map (fun a => EvFire (f a)) l) = map f l.
Proof. induction l as [|a l IH]; simpl; [reflexivity | now rewrite IH]. Qed.

(** C3.  A wrapper with a [stream] key of label [S] and a [data] key:
    a batch of documents [d1..dn] under [data] makes exactly [n] sink
    invocations, one per element in the order [d1..dn], each with the
    element tagged ["stream": S]; a single document makes exactly one,
    with that document tagged.  Tagging sets the key [stream] to [S] and
    leaves every other key as it was.  Nothing else happens and nothing is
    raised. *)
Theorem market_demultiplex (wrapper : dict) (S : json) (p : Payload) (w : World) :
  dict_get "stream" wrapper = Some S ->
  dict_get "data" wrapper = Some (payload_json p) ->
  market_handle_event (JObj wrapper) w =
    (Ok tt, record w (map (fun d => EvFire (tag S d)) (payload_docs p))) /\
  fired (trace (snd (market_handle_event (JObj wrapper) w))) =
    fired (trace w) ++ map (tag S) (payload_docs p) /\
  forall d, In d (payload_docs p) ->
    exists d', tag S d = JObj d' /\
      dict_get "stream" d' = Some S /\
      forall k, k <> "stream" -> dict_get k d' = dict_get k d.
Proof.
  intros Hs Hd.
  assert (Hrun : market_handle_event (JObj wrapper) w =
    (Ok tt, record w (map (fun d => EvFire (tag S d)) (payload_docs p)))).
  { unfold market_handle_event, bind, lift, py_in, py_getitem, dict_has.
    rewrite Hs, Hd.
    destruct p as [docs|doc]; simpl.
    - apply fire_each_docs.
    - reflexivity. }
  split; [exact Hrun|]. split.
  - rewrite Hrun. simpl. rewrite fired_app. f_equal.
    apply fired_map_fire.
  - intros d _. exists (dict_set "stream" S d). split; [reflexivity|]. split.
    + apply dict_get_set_same.
    + intros k Hk. now apply dict_get_set_other.
Qed.

(** The second example of the specification: two documents, in order. *)
Lemma market_demultiplex_witness :
  fired (trace (snd (market_handle_event
    (JObj [("stream", JStr "X");
           ("data", JArr [JObj [("a", JInt 1)]; JObj [("a", JInt 2)]])])
    init))) =
  [JObj [("a", JInt 1); ("stream", JStr "X")];
   JObj [("a", JInt 2); ("stream", JStr "X")]].
Proof.
  exact (proj1 (proj2 (market_demultiplex
    [("stream", JStr "X");
     ("data", JArr [JObj [("a", JInt 1)]; JObj [("a", JInt 2)]])]
    (JStr "X") (Batch [[("a", JInt 1)]; [("a", JInt 2)]]) init
    eq_refl eq_refl))).
Defined.

(** ** Unroutable frames *)

Lemma documents_hold_no_string s l :
  forallb is_document l = true -> existsb (is_str s) l = false.
Proof.
  induction l as [|j l IH]; simpl; [reflexivity|].
  intro H. apply andb_prop in H as [Hj Hl].
  destruct j; try discriminate. simpl. auto.
Qed.

(** C8, as amended.  A decoded frame without a [stream] key: no sink
    invocation, no record through [logging], one line written by [print],
    cyan and carrying the frame, and no exception; the frame is dropped
    and the world is otherwise as before. *)
Theorem market_unroutable (content : json) (w : World) :
  lacks_stream_key content = true ->
  market_handle_event content w =
    (Ok tt, record w [EvPrint "received event without stream: {}" content "cyan"]) /\
  fired (trace (snd (market_handle_event content w))) = fired (trace w) /\
  logged (trace (snd (market_handle_event content w))) = logged (trace w) /\
  printed (trace (snd (market_handle_event content w))) =
    printed (trace w) ++
    [EvPrint "received event without stream: {}" content "cyan"].
Proof.
  intro H.
  assert (Hrun : market_handle_event content w =
    (Ok tt, record w [EvPrint "received event without stream: {}" content "cyan"])).
  { unfold market_handle_event, bind, lift.
    destruct content; try discriminate; simpl in *.
    - now rewrite (documents_hold_no_string _ _ H).
    - apply negb_true_iff in H. now rewrite H. }
  rewrite Hrun. simpl. split; [reflexivity|]. split; [|split].
  - rewrite fired_app. simpl. now rewrite app_nil_r.
  - rewrite logged_app. simpl. now rewrite app_nil_r.
  - now rewrite printed_app.
Qed.

Lemma market_unroutable_witness :
  market_handle_event (JObj [("e", JStr "ping")]) init =
    (Ok tt, record init [EvPrint "received event without stream: {}"
                           (JObj [("e", JStr "ping")]) "cyan"]) /\
  fired (trace (snd (market_handle_event (JObj [("e", JStr "ping")]) init))) = [] /\
  logged (trace (snd (market_handle_event (JObj [("e", JStr "ping")]) init))) = [] /\
  printed (trace (snd (market_handle_event (JObj [("e", JStr "ping")]) init))) =
    [EvPrint "received event without stream: {}" (JObj [("e", JStr "ping")]) "cyan"].
Proof.
  exact (market_unroutable (JObj [("e", JStr "ping")]) init eq_refl).
Defined.

(** C8, as stated, fails: the frame without a [stream] key leaves no
    record through [logging], where the claim has exactly one; the
    warning is a line of [print]. *)
Lemma unroutable_frame_logs_nothing :
  lacks_stream_key (JObj [("e", JStr "ping")]) = true /\
  List.length (logged (trace (snd
    (market_handle_event (JObj [("e", JStr "ping")]) init)))) = 0%nat /\
  List.length (printed (trace (snd
    (market_handle_event (JObj [("e", JStr "ping")]) init)))) = 1%nat.
Proof. repeat split. Qed.

(** ** The receive loop *)

Lemma tame_bind {A B} (m : M A) (k : A -> M B) :
  tame m -> (forall a, tame (k a)) -> tame (bind m k).
Proof.
  intros (Um & Em & Tm) Hk.
  assert (Uk : forall a, uniform (k a)) by (intro a; apply Hk).
  split; [now apply uniform_bind|].
  unfold bind. destruct (m init) as [[a|e] d] eqn:E; simpl in *.
  - destruct (Hk a) as (Ua & Ea & Ta). rewrite (Ua d). simpl.
    rewrite forallb_app, Em, Ea, Ta, Tm. auto.
  - auto.
Qed.

Lemma tame_ret {A} (a : A) : tame (ret a).
Proof. repeat split; auto with uniform. Qed.

Lemma tame_raise {A} e : tame (@raise A e).
Proof. repeat split; auto with uniform. Qed.

Lemma tame_lift {A} (r : result A) : tame (lift r).
Proof. repeat split; auto with uniform. Qed.

Lemma tame_emit e : body_event e = true -> tame (emit e).
Proof. intro H; repeat split; auto with uniform. simpl. now rewrite H. Qed.

Lemma tame_drop_coro c : tame (drop_coro c).
Proof. repeat split; auto with uniform. Qed.

Lemma tame_ensure_future v : tame (ensure_future v).
Proof. destruct v; repeat split; auto with uniform. Qed.

Create HintDb tame.
#[local] Hint Resolve tame_ret tame_raise tame_lift tame_drop_coro
  tame_ensure_future : tame.
#[local] Hint Extern 1 (tame (emit _)) => apply tame_emit; reflexivity : tame.
#[local] Hint Extern 1 (tame (fire _)) => apply tame_emit; reflexivity : tame.

Ltac taming :=
  repeat first
    [ apply tame_bind; [| intros ? ]
    | solve [ auto with tame ]
    | match goal with
      | |- tame (match ?x with _ => _ end) => destruct x
      | |- tame (if ?x then _ else _) => destruct x
      end ].

Lemma tame_fire_each stream_name items : tame (fire_each stream_name items).
Proof.
  induction items as [|j items IH]; simpl; [auto with tame|].
  apply tame_bind; [auto with tame | intro tagged].
  apply tame_bind; [auto with tame | intros _; exact IH].
Qed.

#[local] Hint Resolve tame_fire_each : tame.

Lemma tame_handle_event k content : tame (_handle_event k content).
Proof.
  destruct k; simpl.
  - unfold market_handle_event. taming.
  - unfold user_handle_event. auto with tame.
Qed.

Lemma tame_connect k : tame (connect k).
Proof. unfold connect. taming. Qed.

#[local] Hint Resolve tame_handle_event tame_connect : tame.

Section ReceiveLoop.

Variable loads : string -> option json.

Lemma tame_json_loads d : tame (json_loads loads d).
Proof. unfold json_loads. taming. Qed.

Lemma iteration_split k a :
  iteration loads k a = (set_last_msg_time (at_us a) ;;; after_timestamp loads k a).
Proof. reflexivity. Qed.

Lemma tame_after_timestamp k a : tame (after_timestamp loads k a).
Proof.
  unfold after_timestamp, reconnect.
  pose proof tame_json_loads. taming.
Qed.

Lemma uniform_iteration k a : uniform (iteration loads k a).
Proof.
  rewrite iteration_split. apply uniform_bind; [auto with uniform|].
  intros _. apply tame_after_timestamp.
Qed.

Lemma iteration_world k a w :
  iteration loads k a w =
    (outcome_of loads k a, extend w (snd (iteration loads k a init))).
Proof. apply uniform_iteration. Qed.

(** The timestamp comes first in a turn, once, and is the reading taken
    at the receipt; all that follows is logging, decoding and dispatch. *)
Lemma effects_of_shape k a :
  exists rest,
    effects_of loads k a = EvSetTime (at_us a) :: rest /\
    forallb body_event rest = true /\
    last_msg_time (snd (iteration loads k a init)) = Some (at_us a).
Proof.
  destruct (tame_after_timestamp k a) as (U & E & T).
  exists (trace (snd (after_timestamp loads k a init))).
  unfold effects_of. rewrite iteration_split.
  unfold bind, set_last_msg_time. simpl.
  rewrite (U _). simpl. rewrite T. auto.
Qed.


Lemma ws_connects_body t : forallb body_event t = true -> ws_connects t = [].
Proof.
  induction t as [|e t IH]; simpl; [reflexivity|].
  intro H. apply andb_prop in H as [He Ht].
  destruct e; try discriminate; simpl; auto.
Qed.


Lemma ws_connects_effects_of k a : ws_connects (effects_of loads k a) = [].
Proof.
  destruct (effects_of_shape k a) as (rest & -> & Hb & _).
  simpl. now apply ws_connects_body.
Qed.

Lemma handle_messages_trace k inbox w :
  trace (snd (_handle_messages loads k inbox w)) =
    trace w ++ flat_map (effects_of loads k) (received loads k inbox).
Proof.
  revert w. induction inbox as [|a rest IH]; intro w; simpl.
  - now rewrite app_nil_r.
  - unfold bind. rewrite iteration_world.
    destruct (outcome_of loads k a); simpl.
    + rewrite IH. simpl. now rewrite app_assoc.
    + now rewrite app_nil_r.
Qed.



Lemma handle_messages_ws_connects k inbox w :
  ws_connects (trace (snd (_handle_messages loads k inbox w))) =
    ws_connects (trace w).
Proof.
  rewrite handle_messages_trace, ws_connects_app.
  induction (received loads k inbox) as [|a l IH]; simpl.
  - now rewrite app_nil_r.
  - now rewrite ws_connects_app, ws_connects_effects_of.
Qed.







(** On a data frame whose text decodes, a [UserEventsDataStream]
    dispatches the decoded content itself, and nothing else. *)
Lemma user_dispatches_content a s content :
  type (msg a) = TEXT -> data (msg a) = DStr s -> loads s = Some content ->
  outcome_of loads User a = Ok tt /\ fired (effects_of loads User a) = [content].
Proof.
  intros Ht Hd Hl. unfold outcome_of, effects_of, iteration.
  rewrite Ht, Hd. unfold bind, json_loads, emit, set_last_msg_time. simpl.
  rewrite Hl. simpl. auto.
Qed.

End ReceiveLoop.

(** ** Concrete frames *)



(** ** Reconnection *)

(** C1.  [connect] returns [None] with nothing scheduled: the coroutine
    of [start] is built and left, the event loop has the tasks it had, no
    effect has taken place and no attribute is set.  After [connect] on a
    stream fresh from [__init__] no receive loop is pending or running. *)
Theorem connect_schedules_nothing (k : StreamKind) (w : World) :
  fst (connect k w) = Ok VNone /\
  tasks (snd (connect k w)) = tasks w /\
  trace (snd (connect k w)) = trace w /\
  web_socket (snd (connect k w)) = web_socket w /\
  last_msg_time (snd (connect k w)) = last_msg_time w /\
  dropped (snd (connect k w)) = dropped w ++ [CStart k] /\
  tasks (snd (connect k init)) = [].
Proof. repeat split. Qed.

Section Reconnection.

Variable loads : string -> option json.

(** C7.  A frame of type [CLOSED], [CLOSE] or [ERROR] ends the loop with
    [TypeError]: the condition is logged, [connect] runs inside the loop
    and returns [None], [ensure_future] refuses it; nothing is scheduled,
    the payload never reaches the decoder, no later frame is received. *)
Theorem closure_frame_ends_loop (k : StreamKind) (d : MsgData) (reading : Z)
    (rest : list Arrival) (w : World) :
  Forall (fun t =>
    let r := _handle_messages loads k (frame t d reading :: rest) w in
    fst r = Raise TypeError /\
    tasks (snd r) = tasks w /\
    dropped (snd r) = dropped w ++ [CStart k] /\
    decoded (trace (snd r)) = decoded (trace w) /\
    fired (trace (snd r)) = fired (trace w) /\
    List.length (logged (trace (snd r))) = S (List.length (logged (trace w))))
  [CLOSED; CLOSE; ERROR].
Proof.
  repeat constructor; simpl;
    try (rewrite <- app_assoc, ?decoded_app, ?fired_app; simpl;
         now rewrite app_nil_r);
    rewrite <- app_assoc, logged_app, length_app; simpl; lia.
Qed.

(** A frame of type [CLOSING] is neither logged nor followed by a
    reconnect: its payload, [None], goes to the decoder, which raises. *)
Lemma closing_frame_goes_unnoticed k reading rest w :
  let r := _handle_messages loads k (frame CLOSING DNone reading :: rest) w in
  fst r = Raise TypeError /\
  logged (trace (snd r)) = logged (trace w) /\
  tasks (snd r) = tasks w /\ dropped (snd r) = dropped w.
Proof.
  repeat split; simpl.
  rewrite <- app_assoc, logged_app. simpl. now rewrite app_nil_r.
Qed.

(** ** Opening the transport *)

(** C5.  With a proxy configured, [UserEventsDataStream.start] opens
    the transport without it: the one [ws_connect] of the run is against
    [<endpoint>/ws/<token>] with no proxy.  [MarketEventsDataStream.start]
    passes the proxy. *)
Theorem user_start_leaves_proxy_out (endpoint key : string)
    (topics : list string) (reachable : bool) (inbox : list Arrival) :
  let c := {| proxy := Some "http://127.0.0.1:8080";
              registered_streams := topics |} in
  ws_connects (trace (snd
      (user_start loads c endpoint (Some key) reachable inbox init))) =
    [((endpoint ++ "/ws/" ++ key)%string, None)] /\
  ws_connects (trace (snd
      (market_start loads c endpoint reachable inbox init))) =
    [((endpoint ++ "/stream?streams=" ++ String.concat "/" topics)%string,
      Some "http://127.0.0.1:8080")].
Proof.
  intro c. split.
  - unfold user_start, async_with_session, create_listen_key, ws_connect.
    destruct reachable; simpl.
    + unfold bind. simpl.
      match goal with
      | |- context [_handle_messages loads User inbox ?w0] =>
          pose proof (handle_messages_ws_connects loads User inbox w0) as H;
          destruct (_handle_messages loads User inbox w0) as [[u|e] w1]
      end; simpl in *; rewrite ?ws_connects_app, H; reflexivity.
    + reflexivity.
  - unfold market_start, async_with_session, ws_connect.
    destruct reachable; simpl.
    + unfold bind. simpl.
      match goal with
      | |- context [_handle_messages loads Market inbox ?w0] =>
          pose proof (handle_messages_ws_connects loads Market inbox w0) as H;
          destruct (_handle_messages loads Market inbox w0) as [[u|e] w1]
      end; simpl in *; rewrite ?ws_connects_app, H; reflexivity.
    + reflexivity.
Qed.

End Reconnection.

(** ** The liveness probe *)

Lemma seconds_within_a_day us :
  0 <= us < us_per_day -> seconds (timedelta_of_us us) = us / us_per_second.
Proof.
  intro H. unfold timedelta_of_us. simpl. now rewrite Z.mod_small.
Qed.

Lemma whole_seconds_over_two us :
  0 <= us -> (us / us_per_second >? 2) = negb (us <? 3 * us_per_second).
Proof.
  intro H. unfold us_per_second.
  destruct (Z.ltb_spec us (3 * 1000000)) as [Hlt|Hge]; simpl.
  - assert (us / 1000000 < 3) by (apply Z.div_lt_upper_bound; lia).
    destruct (Z.gtb_spec (us / 1000000) 2); [lia | reflexivity].
  - assert (3 <= us / 1000000) by (apply Z.div_le_lower_bound; lia).
    destruct (Z.gtb_spec (us / 1000000) 2); [reflexivity | lia].
Qed.

Section ProbeProperties.

Variable fromtimestamp : Z -> option Z.

(** C4, as amended.  With no registered topic the probe answers true,
    whatever the state.  With at least one, the probe takes the naive
    local datetime of the timestamp from [datetime.fromtimestamp] and
    subtracts it from the naive local reading of [datetime.now()]; when
    that difference is between zero and less than a day, the probe
    answers true exactly when the difference has fewer than three whole
    seconds: a difference of two seconds and a fraction still counts as
    connected. *)
Theorem market_connected_threshold (c : Client) (now : Z) (w : World) :
  (registered_streams c = [] ->
     market_connected fromtimestamp c now w = (Ok true, w)) /\
  (forall t heard, registered_streams c <> [] ->
     last_msg_time w = Some t -> fromtimestamp t = Some heard ->
     0 <= now - heard < us_per_day ->
     market_connected fromtimestamp c now w =
       (Ok (now - heard <? 3 * us_per_second), w)).
Proof.
  unfold market_connected. split.
  - intros ->. reflexivity.
  - intros t heard Hne Ht Hh Hrange.
    destruct (registered_streams c) as [|s l]; [contradiction|].
    cbn [List.length]. rewrite Nat2Z.inj_succ.
    destruct (Z.eqb_spec (Z.succ (Z.of_nat (List.length l))) 0) as [E|_]; [lia|].
    cbn [negb]. unfold bind, get_last_msg_time. rewrite Ht, Hh.
    unfold ret at 1.
    rewrite seconds_within_a_day by exact Hrange.
    rewrite whole_seconds_over_two by lia.
    destruct (now - heard <? 3 * us_per_second); reflexivity.
Qed.

(** C10.  The probe before any connection: a [MarketEventsDataStream]
    with a registered topic reads [last_msg_time], which is not set, and a
    [UserEventsDataStream] reads [web_socket], which is not set; both
    raise [AttributeError] and return no boolean. *)
Theorem connected_before_connect_raises (c : Client) (now : Z) (w : World) :
  (registered_streams c <> [] -> last_msg_time w = None ->
     connected fromtimestamp Market c now w = (Raise AttributeError, w)) /\
  (web_socket w = None ->
     connected fromtimestamp User c now w = (Raise AttributeError, w)).
Proof.
  split.
  - intros Hne Hnone. simpl. unfold market_connected.
    destruct (registered_streams c) as [|s l]; [contradiction|].
    cbn [List.length]. rewrite Nat2Z.inj_succ.
    destruct (Z.eqb_spec (Z.succ (Z.of_nat (List.length l))) 0) as [E|_]; [lia|].
    cbn [negb]. unfold bind, get_last_msg_time. now rewrite Hnone.
  - intro Hnone. simpl. unfold user_connected, bind, get_web_socket.
    now rewrite Hnone.
Qed.

End ProbeProperties.

Lemma market_connected_threshold_witness :
  market_connected utc one_topic 1700000003000000 (heard_at 1700000000000000) =
    (Ok false, heard_at 1700000000000000) /\
  market_connected utc {| proxy := None; registered_streams := [] |}
    1700000003000000 init = (Ok true, init).
Proof.
  split.
  - refine (proj2 (market_connected_threshold utc one_topic 1700000003000000
                     (heard_at 1700000000000000))
                  1700000000000000 1700000000000000 _ _ _ _).
    + unfold one_topic; simpl; discriminate.
    + reflexivity.
    + reflexivity.
    + unfold us_per_day, us_per_second; lia.
  - refine (proj1 (market_connected_threshold utc _ _ _) _). reflexivity.
Defined.

(** C4, as stated, fails: on a machine on UTC, two and a half seconds
    after the last frame, more than two seconds, the probe still answers
    true. *)
Lemma market_connected_after_2500ms :
  2 * us_per_second < 1700000002500000 - 1700000000000000 /\
  market_connected utc one_topic 1700000002500000 (heard_at 1700000000000000) =
    (Ok true, heard_at 1700000000000000).
Proof. split; reflexivity. Qed.

(** The same field of the difference wraps at one day: a stream silent
    for a whole day reads as connected. *)
Lemma market_connected_after_a_day :
  market_connected utc one_topic (1700000000000000 + us_per_day)
    (heard_at 1700000000000000) =
    (Ok true, heard_at 1700000000000000).
Proof. reflexivity. Qed.

Lemma connected_before_connect_raises_witness :
  connected utc Market one_topic 1700000000000000 init =
    (Raise AttributeError, init) /\
  connected utc User one_topic 1700000000000000 init =
    (Raise AttributeError, init).
Proof.
  destruct (connected_before_connect_raises utc one_topic 1700000000000000 init)
    as [Hm Hu].
  split.
  - apply Hm; [unfold one_topic; simpl; discriminate | reflexivity].
  - apply Hu. reflexivity.
Defined.

(** ** Closing *)

(** C9, as amended.  On a [MarketEventsDataStream] whose [web_socket] is
    set, two calls of [close] in succession raise nothing: each builds the
    close coroutine of the transport and leaves it, and the stream is as
    it was.  With [web_socket] not set the first call raises
    [AttributeError]; a [UserEventsDataStream] has no [close] to call. *)
Theorem close_twice_with_handle (w : World) :
  (forall ws, web_socket w = Some ws ->
     (close Market ;;; close Market) w =
       (Ok tt, mkWorld (last_msg_time w) (Some ws) (tasks w)
                       (dropped w ++ [CWsClose ws; CWsClose ws]) (trace w))) /\
  (web_socket w = None -> close Market w = (Raise AttributeError, w)) /\
  close User w = (Raise AttributeError, w).
Proof.
  split; [|split].
  - intros ws H. unfold close, bind, get_web_socket, drop_coro.
    rewrite H. cbn [web_socket last_msg_time tasks dropped trace].
    rewrite H. cbn [web_socket last_msg_time tasks dropped trace].
    now rewrite <- app_assoc.
  - intro H. unfold close, bind, get_web_socket. now rewrite H.
  - reflexivity.
Qed.

Lemma close_twice_with_handle_witness :
  let ws := {| ws_url := "wss://stream.binance.com:9443/stream?streams=";
               closed := true |} in
  let w := mkWorld None (Some ws) [] [] [] in
  fst ((close Market ;;; close Market) w) = Ok tt.
Proof.
  intros ws w.
  rewrite (proj1 (close_twice_with_handle w) ws eq_refl). reflexivity.
Defined.

(** C9, as stated, fails: on a stream with no transport handle the first
    [close] already raises, and so does the pair. *)
Lemma close_without_handle_raises :
  web_socket init = None /\
  close Market init = (Raise AttributeError, init) /\
  (close Market ;;; close Market) init = (Raise AttributeError, init) /\
  (close User ;;; close User) init = (Raise AttributeError, init).
Proof. repeat split. Qed.

(** ** The keepalive *)

Lemma heartbeat_returns key interval env s :
  forallb returns env = true ->
  _heartbeat key interval env s =
    (Ok tt, {| clock := finish interval env (clock s);
               beats := beats s ++ schedule key interval env (clock s) |}).
Proof.
  revert s. induction env as [|r env IH]; intros s H; simpl.
  - rewrite app_nil_r. now destruct s.
  - apply andb_prop in H as [Hr Henv].
    unfold keep_alive_listen_key, returns in *.
    destruct (outcome r); [|discriminate].
    rewrite IH by exact Henv. simpl. now rewrite <- app_assoc.
Qed.

Lemma heartbeat_app key interval env1 env2 s :
  _heartbeat key interval (env1 ++ env2) s =
    match _heartbeat key interval env1 s with
    | (Ok _, s') => _heartbeat key interval env2 s'
    | (Raise e, s') => (Raise e, s')
    end.
Proof.
  revert s. induction env1 as [|r env1 IH]; intro s; simpl; [reflexivity|].
  destruct (keep_alive_listen_key key r (sleep interval s)) as [[u|e] s'];
    [apply IH | reflexivity].
Qed.

Lemma schedule_length key interval env t :
  List.length (schedule key interval env t) = List.length env.
Proof. revert t. induction env; intro t; simpl; auto. Qed.

Lemma schedule_keys key interval env t :
  Forall (fun b => beat_key b = key) (schedule key interval env t).
Proof. revert t. induction env; intro t; simpl; constructor; auto. Qed.

Lemma schedule_first key interval env t b :
  nth_error (schedule key interval env t) 0 = Some b ->
  beat_at b = t + Z.max 0 interval.
Proof. destruct env; simpl; [discriminate|]. now intros [= <-]. Qed.

Lemma schedule_spacing key interval env t i r b1 b2 :
  nth_error env i = Some r ->
  nth_error (schedule key interval env t) i = Some b1 ->
  nth_error (schedule key interval env t) (S i) = Some b2 ->
  beat_at b2 = beat_at b1 + Z.max 0 (took r) + Z.max 0 interval.
Proof.
  revert t i. induction env as [|r0 env IH]; intros t i Hr H1 H2.
  - destruct i; discriminate.
  - destruct i as [|i].
    + simpl in Hr, H1. injection Hr as ->. injection H1 as <-.
      change (nth_error (schedule key interval env
                (t + Z.max 0 interval + Z.max 0 (took r))) 0 = Some b2) in H2.
      apply schedule_first in H2. simpl. lia.
    + simpl in Hr. apply (IH _ i Hr H1 H2).
Qed.

(** C6, as amended.  Against renewals that all return, whether the
    server accepted them or not, the keepalive stays alive for as many
    turns as one cares to watch and makes one invocation per turn, each
    for its token: the first an interval after the start, each next one an
    interval after the previous call came back.  A renewal that raises
    ends the task: it is the last invocation, whatever would follow. *)
Theorem heartbeat_schedule (listen_key : string) (interval : Z)
    (good : list Renewal) (s : Timeline) :
  forallb returns good = true ->
  (exists new,
     _heartbeat listen_key interval good s =
       (Ok tt, {| clock := finish interval good (clock s);
                  beats := beats s ++ new |}) /\
     List.length new = List.length good /\
     Forall (fun b => beat_key b = listen_key) new /\
     (forall b, nth_error new 0 = Some b ->
        beat_at b = clock s + Z.max 0 interval) /\
     (forall i r b1 b2,
        nth_error good i = Some r ->
        nth_error new i = Some b1 ->
        nth_error new (S i) = Some b2 ->
        beat_at b2 = beat_at b1 + Z.max 0 (took r) + Z.max 0 interval)) /\
  (forall bad later,
     returns bad = false ->
     fst (_heartbeat listen_key interval (good ++ bad :: later) s) =
       Raise ClientError /\
     List.length (beats (snd
         (_heartbeat listen_key interval (good ++ bad :: later) s))) =
       (List.length (beats s) + List.length good + 1)%nat).
Proof.
  intro Hgood. split.
  - exists (schedule listen_key interval good (clock s)).
    split; [now apply heartbeat_returns|].
    split; [apply schedule_length|].
    split; [apply schedule_keys|].
    split; [apply schedule_first|].
    intros i r b1 b2. apply schedule_spacing.
  - intros bad later Hbad.
    rewrite heartbeat_app, (heartbeat_returns _ _ _ _ Hgood).
    simpl. unfold keep_alive_listen_key, returns in *.
    destruct (outcome bad); [discriminate|]. simpl.
    rewrite !length_app, schedule_length. simpl. split; [reflexivity | lia].
Qed.

Lemma heartbeat_schedule_witness :
  forallb returns three_renewals = true /\
  exists new,
    _heartbeat "token" default_interval three_renewals midnight =
      (Ok tt, {| clock := 5404; beats := new |}) /\
    List.length new = 3%nat /\
    Forall (fun b => beat_key b = "token") new.
Proof.
  split; [reflexivity|].
  destruct (heartbeat_schedule "token" default_interval three_renewals
              midnight eq_refl) as [(new & Hrun & Hlen & Hkey & _) _].
  exists new. split; [exact Hrun|]. split; [exact Hlen | exact Hkey].
Defined.

(** C6, as stated, fails: a renewal that raises is the last one; the
    interval after it brings no further attempt. *)
Lemma heartbeat_stops_at_failure :
  _heartbeat "token" default_interval
    [ {| took := 1; outcome := Returns true |};
      {| took := 1; outcome := Raises |};
      {| took := 1; outcome := Returns true |} ] midnight =
  (Raise ClientError,
   {| clock := 3602;
      beats := [ {| beat_key := "token"; beat_at := 1800 |};
                 {| beat_key := "token"; beat_at := 3601 |} ] |}).
Proof. reflexivity. Qed.

(** * Further properties *)

(** ** [__init__] *)

(** X1.  The user agent [__init__] stores is never empty: a non-empty
    agent that is passed is stored as it is, and both [None] and the empty
    string give the default, which carries the version of the package. *)
Theorem init_user_agent (version : string) (client : Client)
    (endpoint : string) (user_agent : option string) :
  let self := __init__ version client endpoint user_agent in
  self_user_agent self <> EmptyString /\
  (forall ua, user_agent = Some ua -> ua <> EmptyString ->
     self_user_agent self = ua) /\
  (user_agent = None \/ user_agent = Some EmptyString ->
     self_user_agent self = default_user_agent version) /\
  self_client self = client /\ self_endpoint self = endpoint.
Proof.
  unfold __init__. cbn [self_user_agent self_client self_endpoint].
  repeat split.
  - destruct user_agent as [ua|]; simpl.
    + destruct (String.eqb_spec ua EmptyString) as [->|Hne]; simpl;
        [discriminate | exact Hne].
    + discriminate.
  - intros ua -> Hne. simpl.
    destruct (String.eqb_spec ua EmptyString); [contradiction | reflexivity].
  - intros [-> | ->]; reflexivity.
Qed.

Lemma init_user_agent_witness :
  self_user_agent (__init__ "1.0" one_topic "wss://stream.binance.com:9443"
                     (Some "my-bot")) = "my-bot" /\
  self_user_agent (__init__ "1.0" one_topic "wss://stream.binance.com:9443"
                     (Some EmptyString)) =
    "binance.py (https://git.io/binance.py, 1.0)".
Proof.
  split.
  - apply (proj1 (proj2 (init_user_agent "1.0" one_topic
             "wss://stream.binance.com:9443" (Some "my-bot"))) "my-bot").
    + reflexivity.
    + discriminate.
  - apply (proj1 (proj2 (proj2 (init_user_agent "1.0" one_topic
             "wss://stream.binance.com:9443" (Some EmptyString))))).
    right. reflexivity.
Defined.

(** ** [MarketEventsDataStream._handle_event]: the edges *)

(** X2.  A wrapper with a [stream] key and no [data] key raises
    [KeyError]: nothing is dispatched, nothing is printed, the world is as
    it was. *)
Theorem market_missing_data_key (wrapper : dict) (S : json) (w : World) :
  dict_get "stream" wrapper = Some S ->
  dict_get "data" wrapper = None ->
  market_handle_event (JObj wrapper) w = (Raise KeyError, w).
Proof.
  intros Hs Hd.
  unfold market_handle_event, bind, lift, py_in, py_getitem, dict_has.
  now rewrite Hs, Hd.
Qed.

Lemma market_missing_data_key_witness :
  market_handle_event (JObj [("stream", JStr "btcusdt@trade")]) init =
    (Raise KeyError, init).
Proof.
  exact (market_missing_data_key [("stream", JStr "btcusdt@trade")]
           (JStr "btcusdt@trade") init eq_refl eq_refl).
Defined.

Lemma fire_each_stops stream_name docs bad rest w :
  is_document bad = false ->
  fire_each stream_name (map JObj docs ++ bad :: rest) w =
    (Raise TypeError,
     record w (map (fun d => EvFire (tag stream_name d)) docs)).
Proof.
  intro Hbad. revert w. induction docs as [|d docs IH]; intro w; simpl.
  - unfold bind, lift. destruct bad; try discriminate; simpl;
      now rewrite record_nil.
  - unfold bind, lift, fire, emit. simpl.
    rewrite IH. unfold record, tag. simpl. now rewrite <- app_assoc.
Qed.

(** X3.  A batch is dispatched element by element until the first
    element that is no document: the documents before it have reached the
    sink, tagged and in order, when [TypeError] is raised; the elements
    after it never do. *)
Theorem market_batch_stops_at_non_document (wrapper : dict) (S : json)
    (docs : list dict) (bad : json) (rest : list json) (w : World) :
  dict_get "stream" wrapper = Some S ->
  dict_get "data" wrapper = Some (JArr (map JObj docs ++ bad :: rest)) ->
  is_document bad = false ->
  market_handle_event (JObj wrapper) w =
    (Raise TypeError, record w (map (fun d => EvFire (tag S d)) docs)) /\
  fired (trace (snd (market_handle_event (JObj wrapper) w))) =
    fired (trace w) ++ map (tag S) docs.
Proof.
  intros Hs Hd Hbad.
  assert (Hrun : market_handle_event (JObj wrapper) w =
    (Raise TypeError, record w (map (fun d => EvFire (tag S d)) docs))).
  { unfold market_handle_event, bind, lift, py_in, py_getitem, dict_has.
    rewrite Hs, Hd. simpl. now apply fire_each_stops. }
  split; [exact Hrun|].
  rewrite Hrun. simpl. rewrite fired_app. f_equal. apply fired_map_fire.
Qed.

Lemma market_batch_stops_at_non_document_witness :
  fired (trace (snd (market_handle_event
    (JObj [("stream", JStr "X");
           ("data", JArr [JObj [("a", JInt 1)]; JNull; JObj [("a", JInt 3)]])])
    init))) = [JObj [("a", JInt 1); ("stream", JStr "X")]].
Proof.
  exact (proj2 (market_batch_stops_at_non_document
    [("stream", JStr "X");
     ("data", JArr [JObj [("a", JInt 1)]; JNull; JObj [("a", JInt 3)]])]
    (JStr "X") [[("a", JInt 1)]] JNull [JObj [("a", JInt 3)]] init
    eq_refl eq_refl eq_refl)).
Defined.

(** X4.  A payload under [data] that is neither a sequence nor a
    document (a string, a number, a boolean, null) raises [TypeError] at
    the tagging: nothing is dispatched and the world is as it was. *)
Theorem market_scalar_payload (wrapper : dict) (S payload : json) (w : World) :
  dict_get "stream" wrapper = Some S ->
  dict_get "data" wrapper = Some payload ->
  (forall l, payload <> JArr l) -> (forall d, payload <> JObj d) ->
  market_handle_event (JObj wrapper) w = (Raise TypeError, w).
Proof.
  intros Hs Hd Hl Ho.
  unfold market_handle_event, bind, lift, py_in, py_getitem, dict_has.
  rewrite Hs, Hd.
  destruct payload; try reflexivity.
  - now destruct (Hl items).
  - now destruct (Ho fields).
Qed.

Lemma market_scalar_payload_witness :
  market_handle_event
    (JObj [("stream", JStr "X"); ("data", JStr "pong")]) init =
  (Raise TypeError, init).
Proof.
  apply (market_scalar_payload
           [("stream", JStr "X"); ("data", JStr "pong")]
           (JStr "X") (JStr "pong") init eq_refl eq_refl);
    intros; discriminate.
Defined.

(** X5.  A decoded frame that is no mapping never reaches the sink,
    whatever it is: a sequence or a string is printed as unroutable or
    raises [TypeError] at the lookup of [stream], a number, a boolean and
    null raise [TypeError] at the membership test. *)
Theorem market_non_mapping_never_dispatches (content : json) (w : World) :
  (forall d, content <> JObj d) ->
  fired (trace (snd (market_handle_event content w))) = fired (trace w) /\
  (fst (market_handle_event content w) = Raise TypeError \/
   market_handle_event content w =
     (Ok tt, record w [EvPrint "received event without stream: {}"
                         content "cyan"])).
Proof.
  intro Hno. unfold market_handle_event, bind, lift.
  destruct content; simpl; auto.
  - destruct (is_substring "stream" s); simpl; auto.
    rewrite fired_app; simpl; rewrite app_nil_r; auto.
  - destruct (existsb (is_str "stream") items); simpl; auto.
    rewrite fired_app; simpl; rewrite app_nil_r; auto.
  - now destruct (Hno fields).
Qed.

Lemma market_non_mapping_never_dispatches_witness :
  fired (trace (snd (market_handle_event (JArr [JStr "stream"]) init))) = [] /\
  fst (market_handle_event (JArr [JStr "stream"]) init) = Raise TypeError.
Proof.
  destruct (market_non_mapping_never_dispatches (JArr [JStr "stream"]) init)
    as [Hf _]; [intros; discriminate|].
  split; [exact Hf | reflexivity].
Defined.

(** ** The receive loop: what it leaves alone *)

Lemma inert_bind {A B} (m : M A) (k : A -> M B) :
  inert m -> (forall a, inert (k a)) -> inert (bind m k).
Proof.
  intros (Um & Tm & Wm) Hk.
  assert (Uk : forall a, uniform (k a)) by (intro a; apply Hk).
  split; [now apply uniform_bind|].
  unfold bind. destruct (m init) as [[a|e] d] eqn:E; simpl in *.
  - destruct (Hk a) as (Ua & Ta & Wa). rewrite (Ua d). simpl.
    rewrite Tm, Ta, Wa, Wm. auto.
  - auto.
Qed.

Lemma inert_ret {A} (a : A) : inert (ret a).
Proof. repeat split; auto with uniform. Qed.

Lemma inert_raise {A} e : inert (@raise A e).
Proof. repeat split; auto with uniform. Qed.

Lemma inert_lift {A} (r : result A) : inert (lift r).
Proof. repeat split; auto with uniform. Qed.

Lemma inert_emit e : inert (emit e).
Proof. repeat split; auto with uniform. Qed.

Lemma inert_set_last_msg_time t : inert (set_last_msg_time t).
Proof. repeat split; auto with uniform. Qed.

Lemma inert_connect k : inert (connect k).
Proof.
  unfold connect. repeat split.
  apply uniform_bind; [auto with uniform | intros _; auto with uniform].
Qed.

Create HintDb inert.
#[local] Hint Resolve inert_ret inert_raise inert_lift inert_emit
  inert_set_last_msg_time inert_connect : inert.
#[local] Hint Extern 1 (inert (fire _)) => apply inert_emit : inert.

Ltac inertia :=
  repeat first
    [ solve [ auto with inert ]
    | apply inert_bind; [| intros ? ]
    | match goal with
      | |- inert (match ?x with _ => _ end) => destruct x
      | |- inert (if ?x then _ else _) => destruct x
      end ].

Lemma inert_fire_each stream_name items : inert (fire_each stream_name items).
Proof.
  induction items as [|j items IH]; simpl; [auto with inert|].
  apply inert_bind; [auto with inert | intro tagged].
  apply inert_bind; [auto with inert | intros _; exact IH].
Qed.

#[local] Hint Resolve inert_fire_each : inert.

Lemma inert_handle_event k content : inert (_handle_event k content).
Proof.
  destruct k; simpl.
  - unfold market_handle_event. inertia.
  - unfold user_handle_event. auto with inert.
Qed.

(** The reconnect trigger schedules nothing: [connect] hands [None] to
    [ensure_future]. *)
Lemma inert_reconnect k : inert (reconnect k).
Proof.
  unfold reconnect. repeat split.
  apply uniform_bind; [apply inert_connect | intro v; auto with uniform].
Qed.

#[local] Hint Resolve inert_handle_event inert_reconnect : inert.

Section LoopAtLarge.

Variable loads : string -> option json.

Lemma inert_json_loads d : inert (json_loads loads d).
Proof. unfold json_loads. inertia. Qed.

Lemma inert_iteration k a : inert (iteration loads k a).
Proof.
  unfold iteration. pose proof inert_json_loads. inertia.
Qed.

Lemma inert_handle_messages k inbox : inert (_handle_messages loads k inbox).
Proof.
  induction inbox as [|a rest IH]; simpl; [auto with inert|].
  apply inert_bind; [apply inert_iteration | intros _; exact IH].
Qed.

(** X6.  The receive loop never schedules anything and never touches
    the transport handle: whatever the frames, closures and errors among
    them, the tasks of the event loop and [web_socket] are after the loop
    what they were before it.  No reconnection is ever pending. *)
Theorem handle_messages_schedules_nothing (k : StreamKind)
    (inbox : list Arrival) (w : World) :
  tasks (snd (_handle_messages loads k inbox w)) = tasks w /\
  web_socket (snd (_handle_messages loads k inbox w)) = web_socket w.
Proof.
  destruct (inert_handle_messages k inbox) as (U & T & W).
  rewrite (U w). simpl. rewrite T, W, app_nil_r. auto.
Qed.

(** X8.  A text frame whose text is no JSON document ends the loop
    with [JSONDecodeError]: the timestamp has been set to its reading, the
    decoder has been entered, nothing has been dispatched, and the frames
    after it are never received. *)
Theorem malformed_frame_ends_loop (k : StreamKind) (a : Arrival) (s : string)
    (rest : list Arrival) (w : World) :
  signals_closure (type (msg a)) = false ->
  data (msg a) = DStr s ->
  loads s = None ->
  _handle_messages loads k (a :: rest) w =
    (Raise JSONDecodeError,
     mkWorld (Some (at_us a)) (web_socket w) (tasks w) (dropped w)
             (trace w ++ [EvSetTime (at_us a); EvDecode (data (msg a))])).
Proof.
  intros Hc Ht Hl. destruct a as [[t d] r]. simpl in *. subst d.
  unfold bind, iteration, bind, set_last_msg_time, json_loads, bind, emit.
  destruct t; try discriminate;
    simpl in *; rewrite Hl; simpl; now rewrite <- app_assoc.
Qed.

(** X9.  A frame the loop does not take for a closure and whose
    payload is no text (the [None] of a [CLOSING] frame, a close code, an
    exception) ends the loop with the [TypeError] of the decoder:
    nothing is logged, no reconnection is tried, nothing is dispatched. *)
Theorem textless_frame_ends_loop (k : StreamKind) (a : Arrival)
    (rest : list Arrival) (w : World) :
  signals_closure (type (msg a)) = false ->
  text_of (data (msg a)) = None ->
  _handle_messages loads k (a :: rest) w =
    (Raise TypeError,
     mkWorld (Some (at_us a)) (web_socket w) (tasks w) (dropped w)
             (trace w ++ [EvSetTime (at_us a); EvDecode (data (msg a))])).
Proof.
  intros Hc Ht. destruct a as [[t d] r]. simpl in *.
  unfold bind, iteration, bind, set_last_msg_time, json_loads, bind, emit.
  destruct t; try discriminate; destruct d; try discriminate;
    simpl; now rewrite <- app_assoc.
Qed.

Lemma user_iteration a content w :
  content_of loads a = Some content ->
  iteration loads User a w =
    (Ok tt,
     mkWorld (Some (at_us a)) (web_socket w) (tasks w) (dropped w)
             (trace w ++ [EvSetTime (at_us a); EvDecode (data (msg a));
                          EvFire content])).
Proof.
  unfold content_of. destruct a as [[t d] r]. simpl.
  unfold iteration, bind, set_last_msg_time, json_loads, bind, emit.
  destruct t; simpl; try discriminate; destruct d; simpl; try discriminate;
    intros ->; unfold user_handle_event, fire, emit; simpl;
    now rewrite <- !app_assoc.
Qed.

(** X10.  A [UserEventsDataStream] forwards everything: when every
    frame is a data frame whose text decodes, the loop takes them all and
    stays alive, and the sink has received exactly the decoded contents,
    unmodified and in arrival order, whatever they are. *)
Theorem user_loop_forwards_all (inbox : list Arrival) (contents : list json)
    (w : World) :
  map (content_of loads) inbox = map Some contents ->
  fst (_handle_messages loads User inbox w) = Ok tt /\
  fired (trace (snd (_handle_messages loads User inbox w))) =
    fired (trace w) ++ contents /\
  times (trace (snd (_handle_messages loads User inbox w))) =
    times (trace w) ++ map at_us inbox.
Proof.
  revert contents w.
  induction inbox as [|a rest IH]; intros contents w H.
  - destruct contents; [|discriminate]. simpl. now rewrite !app_nil_r.
  - destruct contents as [|c cs]; [discriminate|].
    simpl in H. injection H as Ha Hrest.
    cbn [_handle_messages]. unfold bind.
    rewrite (user_iteration a c w Ha).
    destruct (IH cs (mkWorld (Some (at_us a)) (web_socket w) (tasks w)
                (dropped w)
                (trace w ++ [EvSetTime (at_us a); EvDecode (data (msg a));
                             EvFire c])) Hrest)
      as (Hok & Hf & Ht).
    split; [exact Hok|]. split.
    + rewrite Hf. cbn [trace]. rewrite fired_app. simpl.
      now rewrite <- app_assoc.
    + rewrite Ht. cbn [trace]. rewrite times_app. simpl.
      now rewrite <- app_assoc.
Qed.

End LoopAtLarge.

Lemma user_loop_forwards_all_witness :
  fired (trace (snd (_handle_messages sample_loads User
    [frame TEXT (DStr "ACCOUNT") 1700000000000000;
     frame BINARY (DBytes "TRADE") 1700000000100000] init))) =
  [JObj [("e", JStr "outboundAccountPosition")];
   JObj [("stream", JStr "btcusdt@trade"); ("data", JObj [("p", JInt 1)])]].
Proof.
  exact (proj1 (proj2 (user_loop_forwards_all sample_loads
    [frame TEXT (DStr "ACCOUNT") 1700000000000000;
     frame BINARY (DBytes "TRADE") 1700000000100000]
    [JObj [("e", JStr "outboundAccountPosition")];
     JObj [("stream", JStr "btcusdt@trade"); ("data", JObj [("p", JInt 1)])]]
    init eq_refl))).
Defined.

Lemma malformed_frame_ends_loop_witness :
  fst (_handle_messages sample_loads Market
    [frame TEXT (DStr "{") 1700000000000000;
     frame TEXT (DStr "TRADE") 1700000000100000] init) =
  Raise JSONDecodeError.
Proof.
  rewrite (malformed_frame_ends_loop sample_loads Market
             (frame TEXT (DStr "{") 1700000000000000) "{"
             [frame TEXT (DStr "TRADE") 1700000000100000] init
             eq_refl eq_refl eq_refl).
  reflexivity.
Defined.

Lemma textless_frame_ends_loop_witness :
  fst (_handle_messages sample_loads User
    [frame CLOSING DNone 1700000000000000] init) = Raise TypeError /\
  logged (trace (snd (_handle_messages sample_loads User
    [frame CLOSING DNone 1700000000000000] init))) = [].
Proof.
  rewrite (textless_frame_ends_loop sample_loads User
             (frame CLOSING DNone 1700000000000000) [] init
             eq_refl eq_refl).
  split; reflexivity.
Defined.

(** ** The receive loop of a [MarketEventsDataStream] *)

Lemma documents_are_mapped l :
  forallb is_document l = true -> exists docs, l = map JObj docs.
Proof.
  induction l as [|j l IH]; simpl; intro H; [now exists []|].
  apply andb_prop in H as [Hj Hl]. destruct (IH Hl) as [docs ->].
  destruct j; try discriminate. now exists (fields :: docs).
Qed.

Lemma market_deliverable content w :
  deliverable content = true -> fst (market_handle_event content w) = Ok tt.
Proof.
  unfold deliverable, market_handle_event, bind, lift, py_in, py_getitem,
    dict_has.
  destruct content; try discriminate.
  - intro H. now rewrite (documents_hold_no_string _ _ H).
  - destruct (dict_get "stream" fields) as [S|]; [|reflexivity].
    destruct (dict_get "data" fields) as [[| | | | |l|d]|]; try discriminate.
    + intro H. destruct (documents_are_mapped _ H) as [docs ->].
      simpl. now rewrite fire_each_docs.
    + reflexivity.
Qed.

Section MarketLoop.

Variable loads : string -> option json.

Lemma market_outcome a :
  market_takes loads a = true -> outcome_of loads Market a = Ok tt.
Proof.
  unfold market_takes, content_of, outcome_of.
  destruct a as [[t d] r]. simpl.
  unfold iteration, bind, set_last_msg_time, json_loads, bind, emit.
  destruct t; simpl; try discriminate; destruct d; simpl; try discriminate;
    destruct (loads s) as [content|]; try discriminate; simpl; intro H;
    now apply market_deliverable.
Qed.

(** X11.  A [MarketEventsDataStream] whose frames are all data frames
    that decode to a wrapper with a document or a sequence of documents
    under [data], or to a frame without a [stream] key, takes every one of
    them and stays alive: unroutable frames do not end the loop. *)
Theorem market_loop_stays_alive (inbox : list Arrival) (w : World) :
  forallb (market_takes loads) inbox = true ->
  fst (_handle_messages loads Market inbox w) = Ok tt /\
  received loads Market inbox = inbox.
Proof.
  revert w. induction inbox as [|a rest IH]; intros w H; [auto|].
  simpl in H. apply andb_prop in H as [Ha Hrest].
  cbn [_handle_messages received]. unfold bind.
  rewrite iteration_world, (market_outcome a Ha).
  destruct (IH (extend w (snd (iteration loads Market a init))) Hrest)
    as [Hok Hrec].
  split; [exact Hok | now rewrite Hrec].
Qed.

End MarketLoop.

Lemma market_loop_stays_alive_witness :
  fst (_handle_messages sample_loads Market
    [frame TEXT (DStr "TRADE") 1700000000000000;
     frame TEXT (DStr "ACCOUNT") 1700000000100000;
     frame TEXT (DStr "TRADE") 1700000000200000] init) = Ok tt.
Proof.
  exact (proj1 (market_loop_stays_alive sample_loads
    [frame TEXT (DStr "TRADE") 1700000000000000;
     frame TEXT (DStr "ACCOUNT") 1700000000100000;
     frame TEXT (DStr "TRADE") 1700000000200000] init eq_refl)).
Defined.

(** ** [start] *)

Lemma session_events_app t u :
  session_events (t ++ u) = session_events t ++ session_events u.
Proof. apply filter_app. Qed.

Lemma session_events_loop_events t :
  forallb loop_event t = true -> session_events t = [].
Proof.
  induction t as [|e t IH]; simpl; [reflexivity|].
  intro H. apply andb_prop in H as [He Ht].
  destruct e; try discriminate; simpl; auto.
Qed.

Lemma filter_length_app {A} (f : A -> bool) t u :
  List.length (filter f (t ++ u)) =
    (List.length (filter f t) + List.length (filter f u))%nat.
Proof. now rewrite filter_app, length_app. Qed.

Lemma token_requests_app t u :
  token_requests (t ++ u) = (token_requests t + token_requests u)%nat.
Proof. apply filter_length_app. Qed.

Lemma token_requests_loop_events t :
  forallb loop_event t = true -> token_requests t = 0%nat.
Proof.
  unfold token_requests. induction t as [|e t IH]; simpl; [reflexivity|].
  intro H. apply andb_prop in H as [He Ht].
  destruct e; try discriminate; simpl; auto.
Qed.

Section Start.

Variable loads : string -> option json.

Lemma handle_messages_inert_world k inbox w :
  tasks (snd (_handle_messages loads k inbox w)) = tasks w /\
  web_socket (snd (_handle_messages loads k inbox w)) = web_socket w.
Proof.
  destruct (inert_handle_messages loads k inbox) as (U & T & W).
  rewrite (U w). simpl. rewrite T, W, app_nil_r. auto.
Qed.

Lemma effects_of_loop_events k a :
  forallb loop_event (effects_of loads k a) = true.
Proof.
  destruct (effects_of_shape loads k a) as (rest & -> & Hb & _).
  simpl. induction rest as [|e rest IH]; [reflexivity|].
  simpl in *. apply andb_prop in Hb as [He Hr].
  unfold loop_event at 1. rewrite (IH Hr).
  destruct e; try discriminate; reflexivity.
Qed.

Lemma handle_messages_session_events k inbox w :
  session_events (trace (snd (_handle_messages loads k inbox w))) =
    session_events (trace w).
Proof.
  rewrite handle_messages_trace, session_events_app.
  induction (received loads k inbox) as [|a l IH]; simpl.
  - now rewrite app_nil_r.
  - rewrite session_events_app,
      (session_events_loop_events _ (effects_of_loop_events k a)).
    exact IH.
Qed.

Lemma handle_messages_token_requests k inbox w :
  token_requests (trace (snd (_handle_messages loads k inbox w))) =
    token_requests (trace w).
Proof.
  rewrite handle_messages_trace, token_requests_app.
  induction (received loads k inbox) as [|a l IH]; simpl.
  - apply Nat.add_0_r.
  - rewrite token_requests_app,
      (token_requests_loop_events _ (effects_of_loop_events k a)).
    exact IH.
Qed.

(** What [start] comes to once the transport is open: the loop, from
    the world with the handle stored, and the session closed if the loop
    raises. *)
Lemma market_start_run c endpoint inbox w :
  market_start loads c endpoint true inbox w =
    match _handle_messages loads Market inbox
            (mkWorld (last_msg_time w)
               (Some {| ws_url := market_url endpoint c; closed := false |})
               (tasks w) (dropped w)
               (trace w ++ [EvSessionOpen;
                            EvWsConnect (market_url endpoint c)
                                        (market_proxy_argument c)]))
    with
    | (Ok u, w') => (Ok u, w')
    | (Raise e, w') => (Raise e, record w' [EvSessionClose])
    end.
Proof.
  unfold market_start, async_with_session, ws_connect, market_proxy_argument.
  change (endpoint ++ "/stream?streams=" ++
          String.concat "/" (registered_streams c))%string
    with (market_url endpoint c).
  destruct (truthy (proxy c));
    unfold bind, emit, set_web_socket, ret;
    cbn [last_msg_time web_socket tasks dropped trace];
    rewrite <- app_assoc; cbn [app];
    match goal with
    | |- (let (_, _) := ?L in _) = (let (_, _) := ?R in _) =>
        change L with R; destruct R as [[u|e] w1]
    end; reflexivity.
Qed.

Lemma user_start_run c endpoint key inbox w :
  user_start loads c endpoint (Some key) true inbox w =
    match _handle_messages loads User inbox
            (mkWorld (last_msg_time w)
               (Some {| ws_url := user_url endpoint key; closed := false |})
               (tasks w ++ [CHeartbeat key (60 * 30)]) (dropped w)
               (trace w ++ [EvSessionOpen; EvCreateListenKey;
                            EvWsConnect (user_url endpoint key)
                                        (user_proxy_argument c)]))
    with
    | (Ok u, w') => (Ok u, w')
    | (Raise e, w') => (Raise e, record w' [EvSessionClose])
    end.
Proof.
  unfold user_start, async_with_session, create_listen_key, ws_connect,
    user_proxy_argument.
  change (endpoint ++ "/ws/" ++ key)%string with (user_url endpoint key).
  destruct (truthy (proxy c));
    unfold bind, emit, set_web_socket, ret, ensure_future;
    cbn [last_msg_time web_socket tasks dropped trace];
    rewrite <- !app_assoc; cbn [app];
    match goal with
    | |- (let (_, _) := ?L in _) = (let (_, _) := ?R in _) =>
        change L with R; destruct R as [[u|e] w1]
    end; reflexivity.
Qed.

(** X12.  [MarketEventsDataStream.start] opens the transport once,
    whether the handshake succeeds or not and whatever the frames that
    follow: against [<endpoint>/stream?streams=] and the registered topics
    joined by [/], with the proxy of the client when it is set and
    non-empty and with no proxy otherwise. *)
Theorem market_start_connects_once (c : Client) (endpoint : string)
    (reachable : bool) (inbox : list Arrival) (w : World) :
  ws_connects (trace (snd (market_start loads c endpoint reachable inbox w))) =
    ws_connects (trace w) ++
    [((endpoint ++ "/stream?streams=" ++
       String.concat "/" (registered_streams c))%string,
      if truthy (proxy c) then proxy c else None)].
Proof.
  change (endpoint ++ "/stream?streams=" ++
          String.concat "/" (registered_streams c))%string
    with (market_url endpoint c).
  change (if truthy (proxy c) then proxy c else None)
    with (market_proxy_argument c).
  destruct reachable.
  - rewrite market_start_run.
    match goal with
    | |- context [_handle_messages loads Market inbox ?w0] =>
        pose proof (handle_messages_ws_connects loads Market inbox w0) as H;
        destruct (_handle_messages loads Market inbox w0) as [[u|e] w1]
    end; cbn [snd trace record] in *; rewrite ?ws_connects_app, H;
      rewrite ws_connects_app; simpl; now rewrite ?app_nil_r.
  - unfold market_start, async_with_session, ws_connect,
      market_proxy_argument.
    destruct (truthy (proxy c)); simpl;
      rewrite !ws_connects_app; simpl; now rewrite !app_nil_r.
Qed.

(** X13.  When the handshake fails, [MarketEventsDataStream.start]
    raises the error of the transport with the session closed again: no
    handle is stored, no frame is taken, the timestamp is untouched. *)
Theorem market_start_unreachable (c : Client) (endpoint : string)
    (inbox : list Arrival) (w : World) :
  market_start loads c endpoint false inbox w =
    (Raise ClientError,
     record w [EvSessionOpen;
               EvWsConnect (market_url endpoint c)
                           (if truthy (proxy c) then proxy c else None);
               EvSessionClose]).
Proof.
  unfold market_start, async_with_session, ws_connect, record.
  change (endpoint ++ "/stream?streams=" ++
          String.concat "/" (registered_streams c))%string
    with (market_url endpoint c).
  destruct (truthy (proxy c)); unfold bind, emit, raise;
    cbn [last_msg_time web_socket tasks dropped trace fst snd];
    now rewrite <- !app_assoc.
Qed.

(** X14.  When the token provider fails, [UserEventsDataStream.start]
    raises its error before anything else is tried: the transport is not
    opened, no keepalive is scheduled, no handle is stored, and the
    session is closed again. *)
Theorem user_start_token_failure (c : Client) (endpoint : string)
    (reachable : bool) (inbox : list Arrival) (w : World) :
  user_start loads c endpoint None reachable inbox w =
    (Raise ClientError,
     record w [EvSessionOpen; EvCreateListenKey; EvSessionClose]).
Proof.
  unfold user_start, async_with_session, create_listen_key, record.
  unfold bind, emit, raise.
  cbn [last_msg_time web_socket tasks dropped trace fst snd].
  now rewrite <- !app_assoc.
Qed.

(** X15.  When the token is issued and the handshake fails,
    [UserEventsDataStream.start] raises the error of the transport: the
    token has been requested, but no keepalive is scheduled for it and no
    handle is stored. *)
Theorem user_start_unreachable (c : Client) (endpoint key : string)
    (inbox : list Arrival) (w : World) :
  user_start loads c endpoint (Some key) false inbox w =
    (Raise ClientError,
     record w [EvSessionOpen; EvCreateListenKey;
               EvWsConnect (user_url endpoint key)
                           (if truthy (proxy c) then None else proxy c);
               EvSessionClose]).
Proof.
  unfold user_start, async_with_session, create_listen_key, ws_connect, record.
  change (endpoint ++ "/ws/" ++ key)%string with (user_url endpoint key).
  destruct (truthy (proxy c)); unfold bind, emit, raise, ret;
    cbn [last_msg_time web_socket tasks dropped trace fst snd];
    now rewrite <- !app_assoc.
Qed.

(** X16.  Once token and transport are there, a run of
    [UserEventsDataStream.start] schedules exactly one task, the keepalive
    for the token it was issued, with the interval of 1800 seconds, and
    stores the handle of [<endpoint>/ws/<token>]; the frames that follow
    change neither, whether the loop lives or ends. *)
Theorem user_start_schedules_one_keepalive (c : Client)
    (endpoint key : string) (inbox : list Arrival) (w : World) :
  let w' := snd (user_start loads c endpoint (Some key) true inbox w) in
  tasks w' = tasks w ++ [CHeartbeat key 1800] /\
  web_socket w' =
    Some {| ws_url := (endpoint ++ "/ws/" ++ key)%string; closed := false |} /\
  token_requests (trace w') = S (token_requests (trace w)).
Proof.
  intro w'. subst w'. rewrite user_start_run.
  match goal with
  | |- context [_handle_messages loads User inbox ?w0] =>
      destruct (handle_messages_inert_world User inbox w0) as [HT HW];
      pose proof (handle_messages_token_requests User inbox w0) as Htr;
      destruct (_handle_messages loads User inbox w0) as [[u|e] w1]
  end; cbn [snd tasks web_socket trace record] in *;
    (split; [exact HT|]); (split; [exact HW|]);
    rewrite ?token_requests_app, Htr, token_requests_app;
    unfold token_requests; simpl; lia.
Qed.

(** X17.  Either [start] opens one session and closes it exactly when
    it is left, which is by an exception: after a run that raised (the
    token, the handshake, or the loop) the session is closed; while the
    loop lives the session stays open. *)
Theorem start_closes_session (k : StreamKind) (c : Client) (endpoint : string)
    (issued : option string) (reachable : bool) (inbox : list Arrival)
    (w : World) :
  let r := match k with
           | Market => market_start loads c endpoint reachable inbox w
           | User => user_start loads c endpoint issued reachable inbox w
           end in
  session_events (trace (snd r)) =
    session_events (trace w) ++
    EvSessionOpen ::
      match fst r with
      | Ok _ => []
      | Raise _ => [EvSessionClose]
      end.
Proof.
  assert (Hdown : forall (m : M unit) t,
    (forall w0, m w0 = (Raise ClientError, record w0 t)) ->
    session_events t = [] ->
    session_events (trace (snd (async_with_session m w))) =
      session_events (trace w) ++
      EvSessionOpen ::
        match fst (async_with_session m w) with
        | Ok _ => []
        | Raise _ => [EvSessionClose]
        end).
  { intros m t Hm Ht. unfold async_with_session, bind, emit.
    rewrite Hm. unfold record. cbn [fst snd trace].
    rewrite !session_events_app, Ht. simpl.
    now rewrite app_nil_r, <- app_assoc. }
  assert (Hloop : forall k0 w0,
    let r := match _handle_messages loads k0 inbox w0 with
             | (Ok u, w') => (Ok u, w')
             | (Raise e, w') => (Raise e, record w' [EvSessionClose])
             end in
    session_events (trace (snd r)) =
      session_events (trace w0) ++
      match fst r with Ok _ => [] | Raise _ => [EvSessionClose] end).
  { intros k0 w0.
    pose proof (handle_messages_session_events k0 inbox w0) as H.
    destruct (_handle_messages loads k0 inbox w0) as [[u|e] w1];
      unfold record; cbn [fst snd trace] in *;
      rewrite ?session_events_app, H; simpl; now rewrite ?app_nil_r. }
  destruct k; cbv zeta.
  - destruct reachable.
    + rewrite market_start_run, Hloop. cbn [trace].
      rewrite session_events_app. simpl. now rewrite <- app_assoc.
    + unfold market_start.
      apply Hdown with (t := [EvWsConnect (market_url endpoint c)
                                          (market_proxy_argument c)]);
        [|reflexivity].
      intro w0. unfold ws_connect, market_proxy_argument, market_url.
      destruct (truthy (proxy c)); reflexivity.
  - destruct issued as [key|]; [destruct reachable|].
    + rewrite user_start_run, Hloop. cbn [trace].
      rewrite session_events_app. simpl. now rewrite <- app_assoc.
    + unfold user_start.
      apply Hdown with (t := [EvCreateListenKey;
                              EvWsConnect (user_url endpoint key)
                                          (user_proxy_argument c)]);
        [|reflexivity].
      intro w0. unfold create_listen_key, ws_connect, user_proxy_argument,
        user_url.
      destruct (truthy (proxy c)); unfold bind, emit, raise, ret, record;
        cbn [fst snd last_msg_time web_socket tasks dropped trace];
        now rewrite <- app_assoc.
    + unfold user_start.
      apply Hdown with (t := [EvCreateListenKey]); [|reflexivity].
      intro w0. unfold create_listen_key, bind, emit, raise, record.
      cbn [fst snd last_msg_time web_socket tasks dropped trace].
      reflexivity.
Qed.

End Start.

(** ** The probes and [close] *)

Section ProbeAtLarge.

Variable fromtimestamp : Z -> option Z.

Lemma market_connected_heard c now t heard w :
  registered_streams c <> [] -> last_msg_time w = Some t ->
  fromtimestamp t = Some heard ->
  market_connected fromtimestamp c now w =
    (Ok ((now - heard) mod us_per_day <? 3 * us_per_second), w).
Proof.
  intros Hne Ht Hh. unfold market_connected.
  destruct (registered_streams c) as [|s l]; [contradiction|].
  cbn [List.length]. rewrite Nat2Z.inj_succ.
  destruct (Z.eqb_spec (Z.succ (Z.of_nat (List.length l))) 0) as [E|_]; [lia|].
  cbn [negb]. unfold bind, get_last_msg_time. rewrite Ht, Hh.
  unfold ret at 1. unfold timedelta_of_us. cbn [seconds].
  assert (Hm : 0 <= (now - heard) mod us_per_day)
    by (apply Z.mod_pos_bound; reflexivity).
  rewrite (whole_seconds_over_two _ Hm).
  destruct ((now - heard) mod us_per_day <? 3 * us_per_second); reflexivity.
Qed.

(** X18.  With a registered topic and a timestamp that
    [datetime.fromtimestamp] converts, the probe of a
    [MarketEventsDataStream] looks at the difference of the two naive
    local datetimes modulo one day only: it answers true exactly when
    that difference, reduced to a day, is under three seconds.  So whole
    days of silence are not seen, and a timestamp whose local datetime is
    ahead of the local clock reads as disconnected. *)
Theorem market_connected_modulo_day (c : Client) (now t heard : Z) (w : World) :
  registered_streams c <> [] -> last_msg_time w = Some t ->
  fromtimestamp t = Some heard ->
  market_connected fromtimestamp c now w =
    (Ok ((now - heard) mod us_per_day <? 3 * us_per_second), w) /\
  (forall n, market_connected fromtimestamp c (now + n * us_per_day) w =
             market_connected fromtimestamp c now w) /\
  (3 * us_per_second - us_per_day <= now - heard < 0 ->
   market_connected fromtimestamp c now w = (Ok false, w)).
Proof.
  intros Hne Ht Hh.
  split; [now apply (market_connected_heard c now t heard w)|]. split.
  - intro n. rewrite !(market_connected_heard c _ t heard w Hne Ht Hh).
    replace (now + n * us_per_day - heard)
      with (now - heard + n * us_per_day) by lia.
    now rewrite Z.mod_add by discriminate.
  - intro Hgap. rewrite (market_connected_heard c _ t heard w Hne Ht Hh).
    replace ((now - heard) mod us_per_day) with (now - heard + us_per_day).
    + destruct (Z.ltb_spec (now - heard + us_per_day) (3 * us_per_second));
        [lia | reflexivity].
    + apply Z.mod_unique with (q := -1); [left|];
        unfold us_per_day, us_per_second in *; lia.
Qed.

(** X19.  The probes only look: whatever they answer or raise, for
    either class, the stream is after the call what it was before it. *)
Theorem connected_changes_nothing (k : StreamKind) (c : Client) (now : Z)
    (w : World) :
  snd (connected fromtimestamp k c now w) = w.
Proof.
  destruct k; simpl.
  - unfold market_connected, bind, get_last_msg_time.
    destruct (negb _); [|reflexivity].
    destruct (last_msg_time w) as [t|]; [|reflexivity].
    destruct (fromtimestamp t); [|reflexivity]. unfold ret at 1.
    destruct (seconds _ >? 2); reflexivity.
  - unfold user_connected, bind, get_web_socket.
    destruct (web_socket w); reflexivity.
Qed.

Lemma market_connected_reads c now w1 w2 :
  last_msg_time w1 = last_msg_time w2 ->
  fst (market_connected fromtimestamp c now w1) =
  fst (market_connected fromtimestamp c now w2).
Proof.
  intro H. unfold market_connected, bind, get_last_msg_time.
  destruct (negb _); [|reflexivity].
  rewrite H. destruct (last_msg_time w2) as [t|]; [|reflexivity].
  destruct (fromtimestamp t) as [heard|]; [|reflexivity]. unfold ret.
  destruct (seconds (timedelta_of_us (now - heard)) >? 2); reflexivity.
Qed.

Lemma user_connected_reads w1 w2 :
  web_socket w1 = web_socket w2 ->
  fst (user_connected w1) = fst (user_connected w2).
Proof.
  intro H. unfold user_connected, bind, get_web_socket.
  rewrite H. destruct (web_socket w2); reflexivity.
Qed.

(** X20.  [close] closes nothing: for either class and in any state,
    the transport handle with its open or closed flag, the tasks of the
    event loop, the timestamp and the effects are after the call what
    they were before it; the close coroutine of the transport, if one was
    built, is among the dropped ones.  So the probe of a
    [UserEventsDataStream] answers after [close] what it answered
    before. *)
Theorem close_leaves_transport (k : StreamKind) (c : Client) (now : Z)
    (w : World) :
  let w' := snd (close k w) in
  web_socket w' = web_socket w /\
  tasks w' = tasks w /\
  last_msg_time w' = last_msg_time w /\
  trace w' = trace w /\
  fst (user_connected w') = fst (user_connected w) /\
  fst (market_connected fromtimestamp c now w') =
  fst (market_connected fromtimestamp c now w).
Proof.
  assert (H : let w' := snd (close k w) in
              web_socket w' = web_socket w /\ tasks w' = tasks w /\
              last_msg_time w' = last_msg_time w /\ trace w' = trace w).
  { destruct k; simpl; [|auto].
    unfold close, bind, get_web_socket, drop_coro.
    destruct (web_socket w) eqn:E; simpl; auto. }
  cbv zeta in *. destruct H as (Hw & Ht & Hl & Htr).
  repeat split; auto.
  - now apply user_connected_reads.
  - now apply market_connected_reads.
Qed.

Variable loads : string -> option json.

(** X21.  The probe of a [MarketEventsDataStream] cannot tell a dead
    loop from a live one: when the turn of a frame raises and ends the
    loop, the timestamp has still been set to the reading of that frame,
    and as long as the local clock is under three seconds past the local
    datetime of that reading the probe answers true. *)
Theorem dead_loop_reads_connected (a : Arrival) (rest : list Arrival)
    (e : exn) (c : Client) (now heard : Z) (w : World) :
  outcome_of loads Market a = Raise e ->
  fromtimestamp (at_us a) = Some heard ->
  0 <= now - heard < 3 * us_per_second ->
  let r := _handle_messages loads Market (a :: rest) w in
  fst r = Raise e /\
  last_msg_time (snd r) = Some (at_us a) /\
  market_connected fromtimestamp c now (snd r) = (Ok true, snd r).
Proof.
  intros Hout Hh Hgap r. subst r.
  destruct (effects_of_shape loads Market a) as (tl & _ & _ & Ht).
  cbn [_handle_messages]. unfold bind.
  rewrite iteration_world, Hout. cbn [fst snd].
  assert (Hl : last_msg_time (extend w (snd (iteration loads Market a init)))
               = Some (at_us a))
    by (cbn [extend last_msg_time]; now rewrite Ht).
  split; [reflexivity|]. split; [exact Hl|].
  destruct (registered_streams c) as [|s l] eqn:Hreg.
  - unfold market_connected. rewrite Hreg. reflexivity.
  - rewrite (market_connected_heard c now (at_us a) heard _
               ltac:(rewrite Hreg; discriminate) Hl Hh).
    rewrite Z.mod_small
      by (unfold us_per_day, us_per_second in *; lia).
    destruct (Z.ltb_spec (now - heard) (3 * us_per_second));
      [reflexivity | lia].
Qed.

End ProbeAtLarge.

Lemma market_connected_modulo_day_witness :
  market_connected utc one_topic (1700000000000000 + 7 * us_per_day + 1000000)
    (heard_at 1700000000000000) =
  (Ok true, heard_at 1700000000000000).
Proof.
  rewrite (proj1 (market_connected_modulo_day utc one_topic
             (1700000000000000 + 7 * us_per_day + 1000000) 1700000000000000
             1700000000000000 (heard_at 1700000000000000)
             ltac:(unfold one_topic; simpl; discriminate) eq_refl eq_refl)).
  reflexivity.
Defined.

Lemma dead_loop_reads_connected_witness :
  let r := _handle_messages sample_loads Market
             [frame CLOSED DNone 1700000000000000] init in
  fst r = Raise TypeError /\
  market_connected utc one_topic 1700000002000000 (snd r) = (Ok true, snd r).
Proof.
  destruct (dead_loop_reads_connected utc sample_loads
              (frame CLOSED DNone 1700000000000000) [] TypeError one_topic
              1700000002000000 1700000000000000 init eq_refl eq_refl
              ltac:(unfold us_per_second; simpl; lia))
    as (Hr & _ & Hp).
  split; [exact Hr | exact Hp].
Defined.

(** ** The keepalive: when the renewals fall *)

Lemma schedule_nth key interval env t i b :
  nth_error (schedule key interval env t) i = Some b ->
  beat_at b =
    t + (Z.of_nat i + 1) * Z.max 0 interval + busy (firstn i env).
Proof.
  revert t i. induction env as [|r env IH]; intros t i H.
  - destruct i; discriminate.
  - destruct i as [|i].
    + cbn [schedule nth_error] in H. injection H as <-.
      cbn [beat_at firstn busy fold_right Z.of_nat]. lia.
    + cbn [schedule nth_error] in H. apply IH in H. rewrite H.
      cbn [firstn busy fold_right]. fold (busy (firstn i env)).
      rewrite Nat2Z.inj_succ. lia.
Qed.

(** X22.  The renewals are not on a fixed grid: while they return, the
    invocation number [i] (from zero) is made [i + 1] intervals after the
    start plus all the time the invocations before it took.  It is never
    earlier than [i + 1] intervals after the start, and the delay only
    grows. *)
Theorem heartbeat_drift (listen_key : string) (interval : Z)
    (env : list Renewal) (s : Timeline) (i : nat) (b : Beat) :
  forallb returns env = true ->
  nth_error (beats (snd (_heartbeat listen_key interval env s)))
            (List.length (beats s) + i) = Some b ->
  beat_at b =
    clock s + (Z.of_nat i + 1) * Z.max 0 interval + busy (firstn i env) /\
  clock s + (Z.of_nat i + 1) * interval <= beat_at b.
Proof.
  intros Hret Hnth.
  rewrite (heartbeat_returns _ _ _ _ Hret) in Hnth. cbn [snd beats] in Hnth.
  rewrite nth_error_app2 in Hnth by lia.
  replace (List.length (beats s) + i - List.length (beats s))%nat with i
    in Hnth by lia.
  apply schedule_nth in Hnth. split; [exact Hnth|].
  assert (Hb : 0 <= busy (firstn i env)).
  { clear. induction (firstn i env) as [|r l IH]; simpl; lia. }
  nia.
Qed.

Lemma heartbeat_drift_witness :
  5403 = clock midnight + (Z.of_nat 2 + 1) * Z.max 0 default_interval
         + busy (firstn 2 three_renewals).
Proof.
  exact (proj1 (heartbeat_drift "token" default_interval three_renewals
                  midnight 2 {| beat_key := "token"; beat_at := 5403 |}
                  eq_refl eq_refl)).
Defined.
